(** * clonelens: ABI near-clone detection (SimHash + selector Jaccard)

    A shallow embedding of [clonelens.py] and the properties of its
    feature-extraction, fingerprinting and similarity-scoring pipeline.

    Conventions of the embedding.
    - A Python [str] is represented by the [string] of its UTF-8 bytes.
      UTF-8 is injective and compatible with concatenation, so [==],
      f-strings and [",".join] are the operations on [string]; and
      [keccak(text=s)] hashes exactly the bytes of the representation.
    - Python's unbounded [int] is [Z]; [len] is a [nat].
    - Python's [float] is IEEE 754 binary64, modelled by [spec_float]
      with precision 53 and maximal exponent 1024.
    - [set] is stdpp's [gset]; the 64 accumulators of SimHash are a list
      updated by index. *)

From Stdlib Require Import ZArith List String Ascii Lia Permutation Sorted QArith.
From Stdlib Require Import Floats.SpecFloat.
From Stdlib Require HexString.
From stdpp Require Import gmap strings list pretty.

Local Open Scope Z_scope.

(** ** Keccak-256

    [eth_utils.keccak] is the Keccak-256 of the Ethereum ecosystem: the
    sponge over Keccak-f[1600] with rate 136 bytes, the original Keccak
    padding (0x01 ... 0x80) and 32 bytes of output. *)

Module Keccak.

Definition mask64 : Z := Z.ones 64.

Definition rol64 (x : Z) (n : Z) : Z :=
  Z.land (Z.lor (Z.shiftl x n) (Z.shiftr x (64 - n))) mask64.

(** Lane (x, y) of the state is stored at index x + 5 * y. *)
Definition lane (st : list Z) (x y : nat) : Z :=
  nth (x mod 5 + 5 * (y mod 5))%nat st 0.

Definition rotation_offsets : list Z :=
  [ 0;  1; 62; 28; 27;
   36; 44;  6; 55; 20;
    3; 10; 43; 25; 39;
   41; 45; 15; 21;  8;
   18;  2; 61; 56; 14].

Definition round_constants : list Z :=
  [0x0000000000000001; 0x0000000000008082; 0x800000000000808A;
   0x8000000080008000; 0x000000000000808B; 0x0000000080000001;
   0x8000000080008081; 0x8000000000008009; 0x000000000000008A;
   0x0000000000000088; 0x0000000080008009; 0x000000008000000A;
   0x000000008000808B; 0x800000000000008B; 0x8000000000008089;
   0x8000000000008003; 0x8000000000008002; 0x8000000000000080;
   0x000000000000800A; 0x800000008000000A; 0x8000000080008081;
   0x8000000000008080; 0x0000000080000001; 0x8000000080008008].

Definition indices : list nat := seq 0 25.

Definition theta (a : list Z) : list Z :=
  let c x := Z.lxor (lane a x 0) (Z.lxor (lane a x 1)
               (Z.lxor (lane a x 2) (Z.lxor (lane a x 3) (lane a x 4)))) in
  let d x := Z.lxor (c (x + 4)%nat) (rol64 (c (x + 1)%nat) 1) in
  map (fun i => Z.lxor (nth i a 0) (d (i mod 5)%nat)) indices.

(** B[y, 2x + 3y] = rol(A[x, y], r[x, y]); read backwards, the lane at
    (X, Y) comes from x = X + 3Y, y = X. *)
Definition rho_pi (a : list Z) : list Z :=
  map (fun j =>
         let X := (j mod 5)%nat in
         let Y := (j / 5)%nat in
         let x := ((X + 3 * Y) mod 5)%nat in
         let y := X in
         rol64 (lane a x y) (nth (x + 5 * y)%nat rotation_offsets 0))
      indices.

Definition chi (b : list Z) : list Z :=
  map (fun i =>
         let x := (i mod 5)%nat in
         let y := (i / 5)%nat in
         Z.lxor (lane b x y)
                (Z.land (Z.lxor (lane b (x + 1) y) mask64) (lane b (x + 2) y)))
      indices.

Definition iota (rc : Z) (a : list Z) : list Z :=
  match a with
  | [] => []
  | a0 :: rest => Z.lxor a0 rc :: rest
  end.

Definition round (a : list Z) (rc : Z) : list Z :=
  iota rc (chi (rho_pi (theta a))).

Definition keccak_f (a : list Z) : list Z :=
  fold_left round round_constants a.

Definition rate : nat := 136.

(** Little-endian value of up to eight bytes. *)
Fixpoint le_bytes_to_Z (bs : list Z) : Z :=
  match bs with
  | [] => 0
  | b :: bs' => Z.lor b (Z.shiftl (le_bytes_to_Z bs') 8)
  end.

Definition pad (msg : list Z) : list Z :=
  let q := (rate - (length msg mod rate))%nat in
  match q with
  | 1%nat => msg ++ [0x81]
  | _ => msg ++ [0x01] ++ repeat 0 (q - 2) ++ [0x80]
  end.

Definition xor_block (st : list Z) (block : list Z) : list Z :=
  map (fun i =>
         if (i <? 17)%nat
         then Z.lxor (nth i st 0)
                     (le_bytes_to_Z (firstn 8 (skipn (8 * i) block)))
         else nth i st 0)
      indices.

Fixpoint absorb (nblocks : nat) (msg : list Z) (st : list Z) : list Z :=
  match nblocks with
  | O => st
  | S n => absorb n (skipn rate msg) (keccak_f (xor_block st (firstn rate msg)))
  end.

Definition squeeze (st : list Z) : list Z :=
  map (fun i => Z.land (Z.shiftr (nth (i / 8)%nat st 0) (8 * Z.of_nat (i mod 8))) 255)
      (seq 0 32).

Definition keccak256 (msg : list Z) : list Z :=
  let p := pad msg in
  squeeze (absorb (length p / rate) p (repeat 0 25)).

End Keccak.

Definition bytes_of_string (s : string) : list Z :=
  map (fun c => Z.of_N (N_of_ascii c)) (list_ascii_of_string s).

(** [keccak(text=s)]: the 32-byte digest of the UTF-8 bytes of [s]. *)
Definition keccak (s : string) : list Z :=
  Keccak.keccak256 (bytes_of_string s).

Definition hex_digit (n : Z) : ascii :=
  nth (Z.to_nat n) (list_ascii_of_string "0123456789abcdef") "0"%char.

Definition hex_byte (b : Z) : list ascii :=
  [hex_digit (Z.shiftr b 4); hex_digit (Z.land b 15)].

(** [bytes.hex()] *)
Definition hex (bs : list Z) : string :=
  string_of_list_ascii (flat_map hex_byte bs).


(** ** Helpers of [clonelens.py] *)

Definition normalize_type (t : string) : string :=
  if String.eqb t "uint" then "uint256"
  else if String.eqb t "int" then "int256"
  else t.

(** One entry of an ABI member's ["inputs"] list: a JSON object read
    with [i.get("type", "")]. *)
Record abi_input : Type := { in_type : option string }.

(** One member of an ABI: a JSON object whose keys may be absent. *)
Record abi_item : Type := {
  it_type : option string;
  it_name : option string;
  it_inputs : option (list abi_input);
  it_stateMutability : option string
}.

Definition input_types (inputs : list abi_input) : list string :=
  map (fun i => normalize_type (default "" (in_type i))) inputs.

Definition fn_signature (name : string) (inputs : list abi_input) : string :=
  name +:+ "(" +:+ String.concat "," (input_types inputs) +:+ ")".

Definition evsig_signature (name : string) (inputs : list abi_input) : string :=
  name +:+ "(" +:+ String.concat "," (input_types inputs) +:+ ")".

Definition fourbyte (sig : string) : string :=
  "0x" +:+ hex (firstn 4 (keccak sig)).

(** ** SimHash (64-bit) *)

(** [int.from_bytes(bs, "big")] *)
Definition int_from_bytes_big (bs : list Z) : Z :=
  fold_left (fun acc b => Z.lor (Z.shiftl acc 8) b) bs 0.

Definition _hash64 (s : string) : Z :=
  let h := keccak s in
  let x := Z.lxor (Z.lxor (Z.lxor (int_from_bytes_big (firstn 8 h))
                                  (int_from_bytes_big (firstn 8 (skipn 8 h))))
                          (int_from_bytes_big (firstn 8 (skipn 16 h))))
                  (int_from_bytes_big (skipn 24 h)) in
  Z.land x (Z.shiftl 1 64 - 1).

(** The body of the inner loop: [vec[i] += wt if bit else -wt]. *)
Definition vote (hv wt : Z) (vec : list Z) (i : nat) : list Z :=
  let bit := if Z.eqb (Z.land (Z.shiftr hv (Z.of_nat i)) 1) 0 then 0 else 1 in
  <[i := vec !!! i + (if Z.eqb bit 0 then - wt else wt)]> vec.

(** The body of the outer loop, for one token. *)
Definition accumulate (vec : list Z) (t : string * Z) : list Z :=
  let hv := _hash64 (fst t) in
  fold_left (vote hv (snd t)) (seq 0 64) vec.

Definition collect (vec : list Z) (out : Z) (i : nat) : Z :=
  if Z.leb 0 (vec !!! i) then Z.lor out (Z.shiftl 1 (Z.of_nat i)) else out.

Definition simhash64 (tokens : list (string * Z)) : Z :=
  let vec := fold_left accumulate tokens (replicate 64 0) in
  fold_left (collect vec) (seq 0 64) 0.

Fixpoint popcount (p : positive) : nat :=
  match p with
  | xH => 1
  | xO q => popcount q
  | xI q => S (popcount q)
  end.

(** [int.bit_count()]: the number of ones in the binary representation
    of the absolute value. *)
Definition bit_count (z : Z) : Z :=
  match z with
  | Z0 => 0
  | Zpos p => Z.of_nat (popcount p)
  | Zneg p => Z.of_nat (popcount p)
  end.

Definition hamming (a b : Z) : Z := bit_count (Z.lxor a b).

(** ** Floating point: IEEE 754 binary64 *)

Definition float : Type := spec_float.

Definition fadd : float -> float -> float := SFadd 53 1024.
Definition fsub : float -> float -> float := SFsub 53 1024.
Definition fmul : float -> float -> float := SFmul 53 1024.
Definition fdiv : float -> float -> float := SFdiv 53 1024.
Definition fneg : float -> float := SFopp.
Definition feqb : float -> float -> bool := SFeqb.
Definition fltb : float -> float -> bool := SFltb.
Definition fleb : float -> float -> bool := SFleb.

(** The literals of the source. *)
Definition f0_0 : float := S754_zero false.
Definition f1_0 : float := S754_finite false 4503599627370496 (-52).
Definition f64_0 : float := S754_finite false 4503599627370496 (-46).
Definition f0_6 : float := S754_finite false 5404319552844595 (-53).
Definition f0_4 : float := S754_finite false 7205759403792794 (-54).

(** [float(n)] as in [n / 64.0]: the nearest binary64. *)
Definition float_of_int (n : Z) : float := binary_normalize 53 1024 n 0 false.

(** An integer as an exact, not normalised, binary value. *)
Definition exact_of_int (n : Z) : float :=
  match n with
  | Z0 => S754_zero false
  | Zpos p => S754_finite false p 0
  | Zneg p => S754_finite true p 0
  end.

(** [a / b] on two ints: the correctly rounded quotient. The division
    aligns its operands itself, so it is applied to the exact values and
    rounds once. Python raises ZeroDivisionError at [b = 0]; the one
    call site divides by the size of a non-empty set. *)
Definition int_truediv (a b : Z) : float :=
  fdiv (exact_of_int a) (exact_of_int b).

Definition simhash_similarity (a b : Z) : float :=
  fsub f1_0 (fdiv (float_of_int (hamming a b)) f64_0).

(** The exact rational value of a finite float. *)
Definition float_to_Q (x : float) : Q :=
  match x with
  | S754_finite s m e =>
      ((if s then -1 else 1) * inject_Z (Zpos m) * Qpower 2 e)%Q
  | _ => 0%Q
  end.

(** ** Models *)

Record ContractView : Type := {
  cv_file : string;
  cv_name_hint : string;
  cv_functions : list string;
  cv_events : list string;
  cv_selectors : list string;
  cv_simhash64 : Z
}.

Record PairReport : Type := {
  pr_a : string;
  pr_b : string;
  pr_a_name : string;
  pr_b_name : string;
  pr_simhash_sim : float;
  pr_selector_jaccard : float;
  pr_score : float;
  pr_common_selectors : list string;
  pr_only_a : Z;
  pr_only_b : Z
}.

(** ** Python's stable sort

    [sorted] and [list.sort] are stable and compare with [<] only. On
    keys totally preordered by [<] every stable sort returns the same
    list; insertion from the right is the simplest one. *)

Section Sorting.
Context {A : Type} (lt : A -> A -> bool).

Fixpoint insert_stable (x : A) (l : list A) : list A :=
  match l with
  | [] => [x]
  | y :: l' => if lt y x then y :: insert_stable x l' else x :: y :: l'
  end.

Definition sorted (l : list A) : list A := foldr insert_stable [] l.
End Sorting.

(** [sorted(set(xs))] on strings; [str] compares by code point, which on
    UTF-8 is the order of the bytes. *)
Definition sorted_set (s : gset string) : list string :=
  sorted String.ltb (elements s).

(** ** Selector Jaccard *)

Definition jaccard (a b : list string) : float :=
  let sa : gset string := list_to_set a in
  let sb : gset string := list_to_set b in
  if bool_decide (sa = ∅) && bool_decide (sb = ∅) then f1_0
  else if bool_decide (sa = ∅) || bool_decide (sb = ∅) then f0_0
  else
    let inter := size (sa ∩ sb) in
    let union := size (sa ∪ sb) in
    int_truediv (Z.of_nat inter) (Z.of_nat union).

(** ** Feature extraction *)

Section Pipeline.

(** Library functions the pipeline calls on strings: [str.lower]
    (Unicode-aware), [os.path.basename], and the root part of
    [os.path.splitext]. *)
Variable lower : string -> string.
Variable basename : string -> string.
Variable splitext_root : string -> string.

Definition is_special (typ : string) : bool :=
  String.eqb typ "constructor" || String.eqb typ "fallback"
  || String.eqb typ "receive".

(** The first loop of [extract_contract_view], on [(fns, evs, sels)]. *)
Definition classify (acc : list string * list string * list string)
           (it : abi_item) : list string * list string * list string :=
  let '(fns, evs, sels) := acc in
  let typ := default "function" (it_type it) in
  if String.eqb typ "function" then
    let nm := default "" (it_name it) in
    let sig := fn_signature nm (default [] (it_inputs it)) in
    (fns ++ [sig], evs, sels ++ [fourbyte sig])
  else if String.eqb typ "event" then
    let nm := default "" (it_name it) in
    let sig := evsig_signature nm (default [] (it_inputs it)) in
    (fns, evs ++ [sig], sels)
  else if is_special typ then
    let st := default "nonpayable" (it_stateMutability it) in
    (fns ++ ["__" +:+ typ +:+ "__(" +:+ st +:+ ")"], evs, sels)
  else (fns, evs, sels).

(** The second loop: function tokens. *)
Definition function_tokens (tokens : list (string * Z)) (it : abi_item)
  : list (string * Z) :=
  if negb (String.eqb (default "function" (it_type it)) "function") then tokens
  else
    let nm := default "" (it_name it) in
    let sig := fn_signature nm (default [] (it_inputs it)) in
    let st := default "nonpayable" (it_stateMutability it) in
    let tokens := tokens ++ [(lower nm, 3)] in
    let tokens := tokens ++ [(lower sig, 5)] in
    let tokens := tokens ++ [("mut:" +:+ st, 2)] in
    fold_left
      (fun tokens inp =>
         tokens ++ [("type:" +:+ normalize_type (default "" (in_type inp)), 1)])
      (default [] (it_inputs it)) tokens.

(** The third loop: event tokens; [it.get("type") == "event"]. *)
Definition event_tokens (tokens : list (string * Z)) (it : abi_item)
  : list (string * Z) :=
  match it_type it with
  | Some typ =>
      if String.eqb typ "event" then
        let nm := default "" (it_name it) in
        let sig := evsig_signature nm (default [] (it_inputs it)) in
        let tokens := tokens ++ [("ev:" +:+ lower nm, 2)] in
        tokens ++ [("evsig:" +:+ lower sig, 3)]
      else tokens
  | None => tokens
  end.

(** The token list [extract_contract_view] hands to [simhash64]. *)
Definition contract_tokens (abi : list abi_item) : list (string * Z) :=
  let '(fns, evs, sels) := fold_left classify abi ([], [], []) in
  let tokens := fold_left function_tokens abi [] in
  let tokens := fold_left event_tokens abi tokens in
  let tokens := tokens ++ [("nfunc:" +:+ pretty (length fns), 1)] in
  let tokens := tokens ++ [("nevent:" +:+ pretty (length evs), 1)] in
  tokens ++ [("nsel:" +:+ pretty (length sels), 1)].

(** [abi] is what [load_abi_any(path)] returned. *)
Definition extract_contract_view (path : string) (abi : list abi_item)
  : ContractView :=
  let '(fns, evs, sels) := fold_left classify abi ([], [], []) in
  let name_hint := splitext_root (basename path) in
  let sh := simhash64 (contract_tokens abi) in
  {| cv_file := basename path;
     cv_name_hint := name_hint;
     cv_functions := fns;
     cv_events := evs;
     cv_selectors := sorted_set (list_to_set sels);
     cv_simhash64 := sh |}.

(** ** Pairwise comparison *)

(** The body of the double loop of [match_cmd]. *)
Definition pair_report (a b : ContractView) : PairReport :=
  let sim := simhash_similarity (cv_simhash64 a) (cv_simhash64 b) in
  let jac := jaccard (cv_selectors a) (cv_selectors b) in
  let score := fadd (fmul f0_6 sim) (fmul f0_4 jac) in
  let common :=
    sorted_set (list_to_set (cv_selectors a) ∩ list_to_set (cv_selectors b)) in
  {| pr_a := cv_file a;
     pr_b := cv_file b;
     pr_a_name := cv_name_hint a;
     pr_b_name := cv_name_hint b;
     pr_simhash_sim := sim;
     pr_selector_jaccard := jac;
     pr_score := score;
     pr_common_selectors := common;
     pr_only_a :=
       Z.max 0 (Z.of_nat (length (cv_selectors a)) - Z.of_nat (length common));
     pr_only_b :=
       Z.max 0 (Z.of_nat (length (cv_selectors b)) - Z.of_nat (length common)) |}.

(** [for i in range(len(views)): for j in range(i+1, len(views))] *)
Definition match_pairs (views : list ContractView) : list PairReport :=
  let n := length views in
  fold_left
    (fun pairs i =>
       fold_left
         (fun pairs j =>
            match views !! i, views !! j with
            | Some a, Some b => pairs ++ [pair_report a b]
            | _, _ => pairs
            end)
         (seq (i + 1) (n - (i + 1))) pairs)
    (seq 0 n) [].

(** The sort key [(-p.score, -p.selector_jaccard, -p.simhash_sim)]. *)
Definition sort_key (p : PairReport) : float * float * float :=
  (fneg (pr_score p), fneg (pr_selector_jaccard p), fneg (pr_simhash_sim p)).

(** [<] on tuples of three floats: the first position where the two
    differ decides. *)
Definition tuple_lt (x y : float * float * float) : bool :=
  let '(x1, x2, x3) := x in
  let '(y1, y2, y3) := y in
  if negb (feqb x1 y1) then fltb x1 y1
  else if negb (feqb x2 y2) then fltb x2 y2
  else if negb (feqb x3 y3) then fltb x3 y3
  else false.

Definition key_lt (p q : PairReport) : bool :=
  tuple_lt (sort_key p) (sort_key q).

Definition rank (pairs : list PairReport) : list PairReport :=
  sorted key_lt pairs.

(** [match_cmd] up to its output stage: [None] is the ClickException
    for fewer than two files; otherwise [top_pairs]. *)
Definition match_cmd (files : list (string * list abi_item)) (top : Z)
  : option (list PairReport) :=
  if (length files <? 2)%nat then None
  else
    let views := map (fun f => extract_contract_view (fst f) (snd f)) files in
    let pairs := rank (match_pairs views) in
    Some (firstn (Z.to_nat (Z.max 1 top)) pairs).

End Pipeline.

(** ASCII lower-casing: [str.lower] on ASCII text. *)
Definition ascii_lower_char (c : ascii) : ascii :=
  let n := nat_of_ascii c in
  if ((65 <=? n) && (n <=? 90))%nat then ascii_of_nat (n + 32) else c.

Definition ascii_lower (s : string) : string :=
  string_of_list_ascii (map ascii_lower_char (list_ascii_of_string s)).

(** ** Notions used to state the properties *)

Definition is_byte (b : Z) : Prop := 0 <= b < 256.

Definition is_lower_hex (c : ascii) : bool :=
  let n := nat_of_ascii c in
  ((48 <=? n) && (n <=? 57) || (97 <=? n) && (n <=? 102))%nat.

Definition hex_value (c : ascii) : Z :=
  let n := Z.of_nat (nat_of_ascii c) in
  if n <=? 57 then n - 48 else n - 87.

(** [bytes.fromhex] on an even number of hex digits. *)
Fixpoint unhex (cs : list ascii) : list Z :=
  match cs with
  | hi :: lo :: rest => (16 * hex_value hi + hex_value lo) :: unhex rest
  | _ => []
  end.

(** The vote of a token with hash [hv] and weight [wt] at position [i]. *)
Definition delta (hv wt : Z) (i : nat) : Z :=
  if Z.testbit hv (Z.of_nat i) then wt else - wt.

(** The number of bit positions below [n] at which [x] has a one. *)
Definition count_bits (x : Z) (n : nat) : nat :=
  length (filter (fun i => Is_true (Z.testbit x (Z.of_nat i))) (seq 0 n)).

(** The Hamming distance of two 64-bit words: the number of positions
    at which they differ. *)
Definition hamming_distance (a b : Z) : nat :=
  length (filter (fun i => Z.testbit a (Z.of_nat i) <> Z.testbit b (Z.of_nat i))
                 (seq 0 64)).

(** The reports in the order the double loop produces them: each view
    against every later one. *)
Fixpoint all_pairs (views : list ContractView) : list PairReport :=
  match views with
  | [] => []
  | a :: rest => map (pair_report a) rest ++ all_pairs rest
  end.

(** The similarity of two fingerprints at Hamming distance [k]. *)
Definition similarity_of_distance (k : nat) : float :=
  fsub f1_0 (fdiv (float_of_int (Z.of_nat k)) f64_0).

(** The selector Jaccard in the words of its specification, on the
    duplicate-free lists of the distinct selectors of each side. *)
Definition jaccard_spec (a b : list string) : float :=
  let Sa := remove_dups a in
  let Sb := remove_dups b in
  match Sa, Sb with
  | [], [] => f1_0
  | [], _ :: _ => f0_0
  | _ :: _, [] => f0_0
  | _ :: _, _ :: _ =>
      int_truediv (Z.of_nat (length (list_intersection Sa Sb)))
                  (Z.of_nat (length (list_union Sa Sb)))
  end.

(** [it.get("type", "function") == "function"] *)
Definition is_function_item (it : abi_item) : bool :=
  String.eqb (default "function" (it_type it)) "function".

(** The token of one input of a function. *)
Definition type_token (inp : abi_input) : string * Z :=
  ("type:" +:+ normalize_type (default "" (in_type inp)), 1).

(** The tokens one member contributes in the function loop. *)
Definition item_function_tokens (lower : string -> string) (it : abi_item)
  : list (string * Z) :=
  if is_function_item it then
    let nm := default "" (it_name it) in
    let sig := fn_signature nm (default [] (it_inputs it)) in
    let st := default "nonpayable" (it_stateMutability it) in
    [(lower nm, 3); (lower sig, 5); ("mut:" +:+ st, 2)]
      ++ map type_token (default [] (it_inputs it))
  else [].

(** The tokens one member contributes in the event loop. *)
Definition item_event_tokens (lower : string -> string) (it : abi_item)
  : list (string * Z) :=
  if bool_decide (it_type it = Some "event") then
    let nm := default "" (it_name it) in
    let sig := evsig_signature nm (default [] (it_inputs it)) in
    [("ev:" +:+ lower nm, 2); ("evsig:" +:+ lower sig, 3)]
  else [].

(** The three lists of the first loop, from the empty ones. *)
Definition scan (abi : list abi_item) : list string * list string * list string :=
  fold_left classify abi ([], [], []).

Definition raw_functions (abi : list abi_item) : list string := (scan abi).1.1.
Definition raw_events (abi : list abi_item) : list string := (scan abi).1.2.
Definition raw_selectors (abi : list abi_item) : list string := (scan abi).2.

(** A token of weight 1 whose string starts with nsel: *)
Definition is_nsel_token (t : string * Z) : bool :=
  String.prefix "nsel:" t.1 && (t.2 =? 1).

(** A member without a ["type"] key, given the key ["function"]. *)
Definition with_default_type (it : abi_item) : abi_item :=
  {| it_type := Some (default "function" (it_type it));
     it_name := it_name it;
     it_inputs := it_inputs it;
     it_stateMutability := it_stateMutability it |}.

(** The selectors one member contributes in the first loop. *)
Definition item_selectors (it : abi_item) : list string :=
  if is_function_item it
  then [fourbyte (fn_signature (default "" (it_name it)) (default [] (it_inputs it)))]
  else [].

(** [os.path.basename] on POSIX paths: what follows the last slash. *)
Definition posix_basename (p : string) : string :=
  string_of_list_ascii
    (fold_left (fun acc c => if Ascii.eqb c "/" then [] else acc ++ [c])
               (list_ascii_of_string p) []).

(** Sample members. *)
Definition f_view : abi_item :=
  {| it_type := Some "function"; it_name := Some "f";
     it_inputs := Some []; it_stateMutability := Some "view" |}.

Definition payable_constructor : abi_item :=
  {| it_type := Some "constructor"; it_name := None;
     it_inputs := Some []; it_stateMutability := Some "payable" |}.

(** The position of a float that is not a NaN in the order of [<]:
    class (infinities, negative, zero, positive), then exponent and
    mantissa, both negated on the negative side. *)
Definition ord (x : float) : Z * Z * Z :=
  match x with
  | S754_nan => (0, 0, 0)
  | S754_zero _ => (0, 0, 0)
  | S754_infinity s => (if s then -2 else 2, 0, 0)
  | S754_finite s m e => if s then (-1, - e, - Zpos m) else (1, e, Zpos m)
  end.

(** The strict lexicographic order on positions. *)
Definition lex3_lt (a b : Z * Z * Z) : Prop :=
  a.1.1 < b.1.1
  \/ (a.1.1 = b.1.1 /\ (a.1.2 < b.1.2 \/ (a.1.2 = b.1.2 /\ a.2 < b.2))).

Definition is_nan (x : float) : bool :=
  match x with S754_nan => true | _ => false end.

(** No key of the report is a NaN. *)
Definition valid_key (p : PairReport) : Prop :=
  is_nan (pr_score p) = false
  /\ is_nan (pr_selector_jaccard p) = false
  /\ is_nan (pr_simhash_sim p) = false.

(** [p] ranks strictly above [q]: descending lexicographic order on
    (score, selector Jaccard, fingerprint similarity). *)
Definition ranks_above (p q : PairReport) : Prop :=
  fltb (pr_score q) (pr_score p) = true
  \/ (feqb (pr_score p) (pr_score q) = true
      /\ (fltb (pr_selector_jaccard q) (pr_selector_jaccard p) = true
          \/ (feqb (pr_selector_jaccard p) (pr_selector_jaccard q) = true
              /\ fltb (pr_simhash_sim q) (pr_simhash_sim p) = true))).

(** [p] and [q] are tied on all three keys. *)
Definition tied (p q : PairReport) : bool :=
  feqb (pr_score p) (pr_score q)
  && feqb (pr_selector_jaccard p) (pr_selector_jaccard q)
  && feqb (pr_simhash_sim p) (pr_simhash_sim q).

(** Equal positions, component by component. *)
Definition lex3_eq (a b : Z * Z * Z) : Prop :=
  a.1.1 = b.1.1 /\ a.1.2 = b.1.2 /\ a.2 = b.2.

(** The order of the keys on the positions of their components. *)
Definition klt (p q : PairReport) : Prop :=
  lex3_lt (ord (pr_score q)) (ord (pr_score p))
  \/ (lex3_eq (ord (pr_score p)) (ord (pr_score q))
      /\ (lex3_lt (ord (pr_selector_jaccard q)) (ord (pr_selector_jaccard p))
          \/ (lex3_eq (ord (pr_selector_jaccard p)) (ord (pr_selector_jaccard q))
              /\ lex3_lt (ord (pr_simhash_sim q)) (ord (pr_simhash_sim p))))).

(** Lexicographic comparison of two sequences of integers. *)
Fixpoint lexcmp (a b : list Z) : comparison :=
  match a, b with
  | x :: a', y :: b' =>
      match x ?= y with
      | Eq => lexcmp a' b'
      | c => c
      end
  | _, _ => Eq
  end.

Definition triple_list (t : Z * Z * Z) : list Z := [t.1.1; t.1.2; t.2].

(** The nine integers that place a report in the ranking. *)
Definition kvec (p : PairReport) : list Z :=
  triple_list (ord (pr_score p))
  ++ triple_list (ord (pr_selector_jaccard p))
  ++ triple_list (ord (pr_simhash_sim p)).

(** Zero, or finite or infinite with the positive sign. *)
Definition nonneg (x : float) : bool :=
  match x with
  | S754_nan => false
  | S754_zero _ => true
  | S754_infinity s => negb s
  | S754_finite s _ _ => negb s
  end.

(** The fingerprint of a view is a 64-bit unsigned integer. *)
Definition fingerprint_ok (v : ContractView) : Prop :=
  0 <= cv_simhash64 v < 2 ^ 64.

(** Three sample inputs of [match_cmd]. *)
Definition sample_files : list (string * list abi_item) :=
  [("abis/a.json", [f_view; payable_constructor]);
   ("abis/b.json", [f_view]);
   ("abis/c.json", [])].

(** The sum of the values of [g] over a list. *)
Definition sum_of {A : Type} (g : A -> Z) (l : list A) : Z :=
  foldr (fun x acc => g x + acc) 0 l.

(** The sum of the votes of all tokens at bit position [i]. *)
Definition vote_sum (tokens : list (string * Z)) (i : nat) : Z :=
  sum_of (fun t => delta (_hash64 t.1) t.2 i) tokens.

(** [int.from_bytes(h[:8]) ^ ... ^ int.from_bytes(h[24:])], without the
    final mask. *)
Definition xor_fold (h : list Z) : Z :=
  Z.lxor (Z.lxor (Z.lxor (int_from_bytes_big (firstn 8 h))
                         (int_from_bytes_big (firstn 8 (skipn 8 h))))
                 (int_from_bytes_big (firstn 8 (skipn 16 h))))
         (int_from_bytes_big (skipn 24 h)).

(** Every weight multiplied by [k]. *)
Definition scale_weights (k : Z) (tokens : list (string * Z)) : list (string * Z) :=
  map (fun t => (t.1, k * t.2)) tokens.

(** An input with its type replaced by the normalised type the
    signature builder reads from it. *)
Definition canonical_input (i : abi_input) : abi_input :=
  {| in_type := Some (normalize_type (default "" (in_type i))) |}.

(** A member with every input in canonical form. *)
Definition canonical_item (it : abi_item) : abi_item :=
  {| it_type := it_type it;
     it_name := it_name it;
     it_inputs := map canonical_input <$> it_inputs it;
     it_stateMutability := it_stateMutability it |}.

(** The signatures one member contributes to the function list. *)
Definition item_functions (it : abi_item) : list string :=
  let typ := default "function" (it_type it) in
  if String.eqb typ "function"
  then [fn_signature (default "" (it_name it)) (default [] (it_inputs it))]
  else if String.eqb typ "event" then []
  else if is_special typ
  then ["__" +:+ typ +:+ "__(" +:+ default "nonpayable" (it_stateMutability it) +:+ ")"]
  else [].

(** The signatures one member contributes to the event list. *)
Definition item_events (it : abi_item) : list string :=
  let typ := default "function" (it_type it) in
  if String.eqb typ "function" then []
  else if String.eqb typ "event"
  then [evsig_signature (default "" (it_name it)) (default [] (it_inputs it))]
  else [].

(** The member kinds [extract_contract_view] reads. *)
Definition is_event_item (it : abi_item) : bool :=
  String.eqb (default "function" (it_type it)) "event".

Definition is_special_item (it : abi_item) : bool :=
  is_special (default "function" (it_type it)).

Definition is_known_item (it : abi_item) : bool :=
  is_function_item it || is_event_item it || is_special_item it.









(** A member with every missing key written out with the default the
    code reads for it. *)
Definition with_defaults (it : abi_item) : abi_item :=
  {| it_type := Some (default "function" (it_type it));
     it_name := Some (default "" (it_name it));
     it_inputs := Some (default [] (it_inputs it));
     it_stateMutability := Some (default "nonpayable" (it_stateMutability it)) |}.

(** The number of inputs of the function-kind members. *)
Definition function_input_count (abi : list abi_item) : nat :=
  length (flat_map (fun it => default [] (it_inputs it))
                   (List.filter is_function_item abi)).

(** ** scan: the printed fingerprint *)

(** [format(n, "x")] of a non-negative integer: its lower-case
    hexadecimal digits, most significant first. *)
Definition hex_digits (n : N) : string :=
  match n with
  | N0 => "0"
  | Npos p => HexString.Raw.of_pos p ""
  end.

Fixpoint zeros (k : nat) : string :=
  match k with
  | O => ""
  | S k => String "0" (zeros k)
  end.

(** [format(n, "016x")]: the digits padded with zeros after the sign to
    a width of 16; longer digit strings are not cut. *)
Definition format_016x (n : Z) : string :=
  let digits := hex_digits (Z.to_N (Z.abs n)) in
  if n <? 0 then "-" +:+ zeros (15 - String.length digits) +:+ digits
  else zeros (16 - String.length digits) +:+ digits.

(** [f"0x{v.simhash64:016x}"], as scan prints and writes it. *)
Definition fingerprint_text (v : ContractView) : string :=
  "0x" +:+ format_016x (cv_simhash64 v).

(** * Properties *)

(** ** Keccak-256 and the selector hasher *)

Example keccak_empty :
  hex (keccak "") = "c5d2460186f7233c927e7db2dcc703c0e500b653ca82273b7bfad8045d85a470".
Proof. vm_compute. reflexivity. Qed.

Example keccak_abc :
  hex (keccak "abc") = "4e03657aea45a94fc7d47ba826c8d667c0d1e6e33a64a036ec44f58fa12d6c45".
Proof. vm_compute. reflexivity. Qed.

Lemma keccak_length (s : string) : length (keccak s) = 32%nat.
Proof.
  unfold keccak, Keccak.keccak256, Keccak.squeeze.
  rewrite length_map, length_seq. reflexivity.
Qed.

Lemma keccak_bytes (s : string) : Forall is_byte (keccak s).
Proof.
  unfold keccak, Keccak.keccak256, Keccak.squeeze.
  apply Forall_forall. intros b Hb.
  apply list_elem_of_In, in_map_iff in Hb. destruct Hb as [i [<- _]].
  unfold is_byte. change 255 with (Z.ones 8). rewrite Z.land_ones by lia.
  apply Z.mod_pos_bound. reflexivity.
Qed.

Lemma string_length_list_ascii (s : string) :
  String.length s = length (list_ascii_of_string s).
Proof. induction s as [|c s IH]; [done|]. cbn. by rewrite IH. Qed.

Lemma hex_byte_spec (b : Z) :
  is_byte b ->
  forallb is_lower_hex (hex_byte b) = true /\ unhex (hex_byte b) = [b].
Proof.
  intros Hb.
  assert (Hall : forallb (fun k =>
            forallb is_lower_hex (hex_byte (Z.of_nat k))
            && bool_decide (unhex (hex_byte (Z.of_nat k)) = [Z.of_nat k]))
            (seq 0 256) = true) by (vm_compute; reflexivity).
  unfold is_byte in Hb.
  rewrite forallb_forall in Hall.
  assert (Hin : In (Z.to_nat b) (seq 0 256)) by (apply in_seq; lia).
  apply Hall in Hin. rewrite Z2Nat.id in Hin by lia.
  apply andb_prop in Hin. destruct Hin as [H1 H2].
  split; [exact H1 | by apply bool_decide_eq_true in H2].
Qed.

Lemma hex_spec (bs : list Z) :
  Forall is_byte bs ->
  let cs := list_ascii_of_string (hex bs) in
  length cs = (2 * length bs)%nat
  /\ forallb is_lower_hex cs = true
  /\ unhex cs = bs.
Proof.
  unfold hex. rewrite list_ascii_of_string_of_list_ascii.
  induction 1 as [|b bs Hb _ IH]; [done|].
  destruct (hex_byte_spec b Hb) as [Hl Hu].
  destruct IH as (IH1 & IH2 & IH3).
  change (flat_map hex_byte (b :: bs)) with (hex_byte b ++ flat_map hex_byte bs).
  unfold hex_byte in *. cbn [app length forallb unhex] in *.
  repeat split.
  - lia.
  - rewrite IH2, andb_true_r in *. exact Hl.
  - injection Hu as ->. by rewrite IH3.
Qed.

(** C5: the selector of every signature is 0x followed by eight
    lowercase hex digits, which encode the first four bytes of the
    Keccak-256 digest of the signature text; the selector of
    transfer(address,uint256) is the golden value 0xa9059cbb. *)
Theorem fourbyte_selector :
  (forall sig : string,
     exists digits : string,
       fourbyte sig = "0x" +:+ digits
       /\ String.length digits = 8%nat
       /\ forallb is_lower_hex (list_ascii_of_string digits) = true
       /\ unhex (list_ascii_of_string digits) = firstn 4 (keccak sig)
       /\ length (keccak sig) = 32%nat)
  /\ fourbyte "transfer(address,uint256)" = "0xa9059cbb".
Proof.
  split; [|vm_compute; reflexivity].
  intros sig. exists (hex (firstn 4 (keccak sig))).
  pose proof (keccak_length sig) as Hlen.
  assert (Hb : Forall is_byte (firstn 4 (keccak sig))).
  { apply Forall_take, keccak_bytes. }
  destruct (hex_spec _ Hb) as (H1 & H2 & H3).
  split; [reflexivity|]. split; [|by repeat split].
  rewrite string_length_list_ascii, H1, length_take, Hlen. reflexivity.
Qed.

(** ** The fingerprint engine *)

(** C1, as the code has it: with no token every accumulator stays 0,
    the test [vec[i] >= 0] holds at all 64 positions, and the
    fingerprint has all 64 bits set. *)
Theorem simhash64_empty : simhash64 [] = 2 ^ 64 - 1.
Proof. vm_compute. reflexivity. Qed.

(** C1 as stated fails: the fingerprint of the empty token list is not 0. *)
Lemma simhash64_empty_nonzero : simhash64 [] <> 0.
Proof. vm_compute. discriminate. Qed.

Lemma vote_delta hv wt vec i :
  vote hv wt vec i = <[i := vec !!! i + delta hv wt i]> vec.
Proof.
  unfold vote, delta. do 2 f_equal.
  rewrite Z.testbit_odd.
  change 1 with (Z.ones 1) at 1. rewrite Z.land_ones by lia.
  change (2 ^ 1) with 2. rewrite Zmod_odd.
  by destruct (Z.odd _).
Qed.

Lemma votes_lookup hv wt n : forall (vec : list Z) (j : nat),
  fold_left (vote hv wt) (seq 0 n) vec !! j =
  if decide (j < n)%nat then (fun v => v + delta hv wt j) <$> vec !! j
  else vec !! j.
Proof.
  induction n as [|n IH]; intros vec j.
  - by case_decide; [lia|].
  - rewrite seq_S, fold_left_app. cbn [fold_left plus].
    rewrite vote_delta.
    set (L := fold_left _ _ vec) in *.
    destruct (decide (n = j)) as [->|Hne].
    + pose proof (IH vec j) as Hj. fold L in Hj.
      rewrite decide_False in Hj by lia. rewrite decide_True by lia.
      destruct (vec !! j) as [v|] eqn:Hv; cbn.
      * rewrite list_lookup_insert_eq by (by eapply lookup_lt_Some).
        by rewrite (list_lookup_total_correct _ _ _ Hj).
      * by apply list_lookup_insert_None.
    + rewrite list_lookup_insert_ne by done. unfold L. rewrite IH.
      repeat case_decide; (done || lia).
Qed.

Lemma accumulate_lookup (vec : list Z) (t : string * Z) (j : nat) :
  accumulate vec t !! j =
  if decide (j < 64)%nat then (fun v => v + delta (_hash64 t.1) t.2 j) <$> vec !! j
  else vec !! j.
Proof. unfold accumulate. apply votes_lookup. Qed.

Lemma accumulate_comm (vec : list Z) (t1 t2 : string * Z) :
  accumulate (accumulate vec t1) t2 = accumulate (accumulate vec t2) t1.
Proof.
  apply list_eq. intros j. rewrite !accumulate_lookup.
  case_decide; [|done].
  destruct (vec !! j); cbn; [f_equal; lia | done].
Qed.

Section FoldPermutation.
Context {A B : Type} (f : B -> A -> B).
Hypothesis f_comm : forall b x y, f (f b x) y = f (f b y) x.

Lemma fold_left_permutation (l1 l2 : list A) :
  Permutation l1 l2 -> forall b, fold_left f l1 b = fold_left f l2 b.
Proof.
  induction 1 as [|x l1 l2 _ IH|x y l|l1 l2 l3 _ IH1 _ IH2]; intros b;
    cbn [fold_left].
  - reflexivity.
  - apply IH.
  - by rewrite f_comm.
  - by rewrite IH1.
Qed.
End FoldPermutation.

Lemma accumulate_permutation (l1 l2 : list (string * Z)) :
  Permutation l1 l2 ->
  forall vec, fold_left accumulate l1 vec = fold_left accumulate l2 vec.
Proof. exact (fold_left_permutation accumulate accumulate_comm l1 l2). Qed.

(** C4: the fingerprint does not depend on the order in which the
    weighted tokens are fed to the engine. *)
Theorem simhash64_permutation (tokens tokens' : list (string * Z)) :
  Permutation tokens tokens' -> simhash64 tokens = simhash64 tokens'.
Proof.
  intros Hp. unfold simhash64. by rewrite (accumulate_permutation _ _ Hp).
Qed.

Lemma simhash64_permutation_witness :
  Permutation [("transfer"%string, 3); ("mut:view"%string, 2)]
              [("mut:view"%string, 2); ("transfer"%string, 3)]
  /\ simhash64 [("transfer"%string, 3); ("mut:view"%string, 2)] =
     simhash64 [("mut:view"%string, 2); ("transfer"%string, 3)].
Proof.
  split; [apply perm_swap | apply simhash64_permutation, perm_swap].
Defined.

(** ** Floating-point literals

    The mantissas and exponents of the literals are those of the nearest
    binary64 values: 0.6 and 0.4 are the correctly rounded 6/10 and
    4/10, and 1.0 and 64.0 are the integers 1 and 64. *)

Example float_literals :
  int_truediv 6 10 = f0_6 /\ int_truediv 4 10 = f0_4
  /\ float_of_int 1 = f1_0 /\ float_of_int 64 = f64_0
  /\ float_of_int 0 = f0_0.
Proof. vm_compute. repeat split. Qed.

(** ** Fingerprint similarity *)

(** The number of bit positions below [n] at which [x] has a one. *)

(** The Hamming distance of two 64-bit words: the number of positions
    at which they differ. *)

Lemma collect_range (vec : list Z) (n : nat) :
  0 <= fold_left (collect vec) (seq 0 n) 0 < 2 ^ Z.of_nat n.
Proof.
  induction n as [|n IH]; [cbn; lia|].
  rewrite seq_S, fold_left_app. cbn [fold_left plus].
  set (out := fold_left _ _ 0) in *.
  rewrite Nat2Z.inj_succ, Z.pow_succ_r by lia.
  unfold collect. destruct (0 <=? vec !!! n); [|lia].
  rewrite Z.shiftl_1_l.
  assert (Hdisj : Z.land out (2 ^ Z.of_nat n) = 0).
  { apply Z.bits_inj'. intros m Hm. rewrite Z.land_spec, Z.bits_0.
    destruct (decide (m = Z.of_nat n)) as [->|Hne].
    - destruct (decide (out = 0)) as [->|Hnz]; [by rewrite Z.bits_0|].
      rewrite Z.bits_above_log2; [done|lia|].
      apply Z.log2_lt_pow2; lia.
    - rewrite Z.pow2_bits_false by lia. apply andb_false_r. }
  rewrite <- Z.add_nocarry_lor by exact Hdisj. lia.
Qed.

Lemma simhash64_range (tokens : list (string * Z)) :
  0 <= simhash64 tokens < 2 ^ 64.
Proof. unfold simhash64. apply (collect_range _ 64). Qed.

Lemma count_bits_0 (n : nat) : count_bits 0 n = 0%nat.
Proof.
  unfold count_bits. induction (seq 0 n) as [|i l IH]; [done|].
  rewrite filter_cons, decide_False; [exact IH|].
  rewrite Z.bits_0. auto.
Qed.

Lemma count_bits_S (x : Z) (n : nat) :
  count_bits x (S n) = ((if Z.odd x then 1 else 0) + count_bits (Z.div2 x) n)%nat.
Proof.
  unfold count_bits. rewrite <- cons_seq, <- fmap_S_seq.
  rewrite filter_cons. change (Z.of_nat 0) with 0. rewrite Z.bit0_odd.
  assert (Hshift : length (filter (fun i => Is_true (Z.testbit x (Z.of_nat i))) (S <$> seq 0 n))
          = length (filter (fun i => Is_true (Z.testbit (Z.div2 x) (Z.of_nat i))) (seq 0 n))).
  { induction (seq 0 n) as [|i l IH]; [done|].
    rewrite fmap_cons, !filter_cons.
    rewrite Nat2Z.inj_succ, Z.div2_spec, Z.shiftr_spec by lia.
    replace (Z.of_nat i + 1) with (Z.succ (Z.of_nat i)) by lia.
    case_decide; cbn [length]; by rewrite IH. }
  destruct (Z.odd x).
  - rewrite decide_True by done. cbn [length]. by rewrite Hshift.
  - rewrite decide_False by auto. by rewrite Hshift.
Qed.

Lemma popcount_count_bits (p : positive) : forall n : nat,
  Zpos p < 2 ^ Z.of_nat n -> popcount p = count_bits (Zpos p) n.
Proof.
  induction p as [p IH|p IH|]; intros [|n] Hlt;
    try (cbn in Hlt; lia);
    rewrite Nat2Z.inj_succ, Z.pow_succ_r in Hlt by lia;
    rewrite count_bits_S; cbn [popcount Z.odd Z.div2 Pos.div2].
  - rewrite <- IH by lia. done.
  - rewrite <- IH by lia. done.
  - cbn. by rewrite count_bits_0.
Qed.

Lemma bit_count_count_bits (x : Z) (n : nat) :
  0 <= x < 2 ^ Z.of_nat n -> bit_count x = Z.of_nat (count_bits x n).
Proof.
  intros [Hx Hlt]. destruct x as [|p|p]; [|..|lia].
  - by rewrite count_bits_0.
  - cbn. by rewrite (popcount_count_bits p n).
Qed.

Lemma lxor_range (a b : Z) (n : Z) :
  0 <= n -> 0 <= a < 2 ^ n -> 0 <= b < 2 ^ n -> 0 <= Z.lxor a b < 2 ^ n.
Proof.
  intros Hn Ha Hb. split; [apply Z.lxor_nonneg; lia|].
  destruct (decide (Z.lxor a b = 0)) as [->|Hnz]; [lia|].
  assert (0 < Z.lxor a b) by (pose proof (proj2 (Z.lxor_nonneg a b)); lia).
  apply Z.log2_lt_pow2; [done|].
  pose proof (Z.log2_lxor a b ltac:(lia) ltac:(lia)).
  destruct (decide (a = 0)) as [->|]; destruct (decide (b = 0)) as [->|];
    rewrite ?Z.lxor_0_l, ?Z.lxor_0_r in *; try lia.
  - apply Z.log2_lt_pow2; lia.
  - apply Z.log2_lt_pow2; lia.
  - assert (Z.log2 a < n) by (apply Z.log2_lt_pow2; lia).
    assert (Z.log2 b < n) by (apply Z.log2_lt_pow2; lia). lia.
Qed.

Lemma hamming_hamming_distance (a b : Z) :
  0 <= a < 2 ^ 64 -> 0 <= b < 2 ^ 64 ->
  hamming a b = Z.of_nat (hamming_distance a b).
Proof.
  intros Ha Hb. unfold hamming.
  rewrite (bit_count_count_bits _ 64) by (apply (lxor_range a b 64); lia).
  f_equal. unfold count_bits, hamming_distance.
  induction (seq 0 64) as [|i l IH]; [done|].
  rewrite !filter_cons, Z.lxor_spec.
  destruct (Z.testbit a _), (Z.testbit b _); cbn [xorb];
    repeat case_decide; try done; cbn [length]; try (by rewrite IH);
    exfalso; auto.
Qed.

Lemma hamming_distance_le (a b : Z) : (hamming_distance a b <= 64)%nat.
Proof.
  unfold hamming_distance.
  etransitivity; [apply length_filter|]. by rewrite length_seq.
Qed.

Lemma similarity_of_distance_spec (k : nat) :
  (k <= 64)%nat ->
  (float_to_Q (similarity_of_distance k) == 1 - inject_Z (Z.of_nat k) / 64)%Q
  /\ fleb f0_0 (similarity_of_distance k) = true
  /\ fleb (similarity_of_distance k) f1_0 = true.
Proof.
  intros Hk.
  assert (Hall : forallb (fun k =>
            Qeq_bool (float_to_Q (similarity_of_distance k))
                     (1 - inject_Z (Z.of_nat k) / 64)
            && fleb f0_0 (similarity_of_distance k)
            && fleb (similarity_of_distance k) f1_0) (seq 0 65) = true)
    by (vm_compute; reflexivity).
  rewrite forallb_forall in Hall.
  assert (Hin : In k (seq 0 65)) by (apply in_seq; lia).
  apply Hall in Hin.
  apply andb_prop in Hin. destruct Hin as [Hin H3].
  apply andb_prop in Hin. destruct Hin as [H1 H2].
  by apply Qeq_bool_iff in H1.
Qed.

Lemma inner_loop (views : list ContractView) (a : ContractView) (i : nat) :
  views !! i = Some a ->
  forall (m s : nat) (pairs : list PairReport),
    fold_left
      (fun pairs j =>
         match views !! i, views !! j with
         | Some a, Some b => pairs ++ [pair_report a b]
         | _, _ => pairs
         end) (seq s m) pairs
    = pairs ++ map (pair_report a) (take m (drop s views)).
Proof.
  intros Ha. induction m as [|m IH]; intros s pairs.
  - cbn. by rewrite app_nil_r.
  - cbn [seq fold_left]. rewrite IH, Ha.
    destruct (views !! s) as [b|] eqn:Hb.
    + rewrite (drop_S _ _ _ Hb). cbn [take map].
      by rewrite <- app_assoc.
    + rewrite !drop_ge by (apply lookup_ge_None in Hb; lia).
      by rewrite !take_nil.
Qed.

Lemma outer_loop (views : list ContractView) :
  forall (m s : nat) (pairs : list PairReport),
    (s + m = length views)%nat ->
    fold_left
      (fun pairs i =>
         fold_left
           (fun pairs j =>
              match views !! i, views !! j with
              | Some a, Some b => pairs ++ [pair_report a b]
              | _, _ => pairs
              end)
           (seq (i + 1) (length views - (i + 1))) pairs)
      (seq s m) pairs
    = pairs ++ all_pairs (drop s views).
Proof.
  induction m as [|m IH]; intros s pairs Hlen.
  - rewrite drop_ge by lia. cbn. by rewrite app_nil_r.
  - cbn [seq fold_left].
    destruct (lookup_lt_is_Some_2 views s ltac:(lia)) as [a Ha].
    rewrite (inner_loop views a s Ha), IH by lia.
    rewrite (drop_S _ _ _ Ha). cbn [all_pairs].
    rewrite take_ge by (rewrite length_drop; lia).
    replace (s + 1)%nat with (S s) by lia.
    by rewrite <- app_assoc.
Qed.

Lemma match_pairs_all_pairs (views : list ContractView) :
  match_pairs views = all_pairs views.
Proof. unfold match_pairs. by rewrite outer_loop. Qed.

Lemma all_pairs_length (views : list ContractView) :
  length (all_pairs views) = (length views * (length views - 1) / 2)%nat.
Proof.
  induction views as [|a rest IH]; [done|].
  cbn [all_pairs]. rewrite length_app, length_map, IH. cbn [length].
  replace (S (length rest) - 1)%nat with (length rest) by lia.
  destruct rest as [|b rest]; [done|]. cbn [length].
  replace (S (length rest) - 1)%nat with (length rest) by lia.
  replace (S (S (length rest)) * S (length rest))%nat
    with (S (length rest) * length rest + S (length rest) * 2)%nat by lia.
  rewrite Nat.div_add by lia. lia.
Qed.

Lemma all_pairs_elem (views : list ContractView) (p : PairReport) :
  p ∈ all_pairs views ->
  exists a b, a ∈ views /\ b ∈ views /\ p = pair_report a b.
Proof.
  induction views as [|a rest IH]; cbn [all_pairs]; [by intros ?%elem_of_nil|].
  intros [Hp|Hp]%elem_of_app.
  - apply list_elem_of_fmap in Hp. destruct Hp as (b & -> & Hb).
    exists a, b. repeat split; [left | by right].
  - destruct (IH Hp) as (x & y & Hx & Hy & ->).
    exists x, y. repeat split; by right.
Qed.

Lemma int_truediv_self (n : Z) : 0 < n -> int_truediv n n = f1_0.
Proof.
  intros Hn. destruct n as [|p|p]; try lia.
  unfold int_truediv, exact_of_int, fdiv, SFdiv, SFdiv_core_binary.
  replace (Zdigits2 (Z.pos p) + 0 - (Zdigits2 (Z.pos p) + 0)) with 0 by lia.
  change (Z.min (fexp 53 1024 0) (0 - 0)) with (-53).
  change (0 - 0 - -53) with 53.
  cbv iota beta.
  rewrite Z.shiftl_mul_pow2 by lia.
  assert (Hdiv : Z.div_eucl (Z.pos p * 2 ^ 53) (Z.pos p) = (2 ^ 53, 0)).
  { assert (H1 : (Z.pos p * 2 ^ 53) / Z.pos p = 2 ^ 53)
      by (rewrite Z.mul_comm; apply Z.div_mul; lia).
    assert (H2 : (Z.pos p * 2 ^ 53) mod Z.pos p = 0)
      by (rewrite Z.mul_comm; apply Z.mod_mul; lia).
    unfold Z.div, Z.modulo in H1, H2.
    destruct (Z.div_eucl (Z.pos p * 2 ^ 53) (Z.pos p)) as [q r].
    by subst. }
  rewrite Hdiv.
  unfold new_location. destruct (Z.even (Z.pos p)); vm_compute; reflexivity.
Qed.

Lemma simhash_similarity_self (fp : Z) : simhash_similarity fp fp = f1_0.
Proof.
  unfold simhash_similarity, hamming. rewrite Z.lxor_nilpotent.
  vm_compute. reflexivity.
Qed.

Lemma jaccard_self (s : list string) : jaccard s s = f1_0.
Proof.
  unfold jaccard.
  destruct (decide (list_to_set s =@{gset string} ∅)) as [He|Hne].
  - by rewrite !bool_decide_eq_true_2.
  - rewrite !bool_decide_eq_false_2 by done. cbn [andb orb].
    rewrite intersection_idemp_L, union_idemp_L.
    apply int_truediv_self.
    assert (size (list_to_set s : gset string) <> 0%nat) by (by intros ?%size_empty_inv%leibniz_equiv).
    lia.
Qed.

Lemma score_self : fadd (fmul f0_6 f1_0) (fmul f0_4 f1_0) = f1_0.
Proof. vm_compute. reflexivity. Qed.

Lemma simhash_similarity_distance (a b : Z) :
  0 <= a < 2 ^ 64 -> 0 <= b < 2 ^ 64 ->
  simhash_similarity a b = similarity_of_distance (hamming_distance a b).
Proof.
  intros Ha Hb. unfold simhash_similarity, similarity_of_distance.
  by rewrite hamming_hamming_distance.
Qed.

(** C7: for 64-bit fingerprints the Hamming distance is the popcount of
    the XOR, the fingerprint similarity is exactly 1 - distance/64 and
    lies in [0,1]; and every report of the double loop carries the
    similarity and the Jaccard of its two views and the score
    0.6 * similarity + 0.4 * Jaccard (binary64 operations). *)
Theorem similarity_and_score :
  (forall a b : Z,
     0 <= a < 2 ^ 64 -> 0 <= b < 2 ^ 64 ->
     hamming a b = bit_count (Z.lxor a b)
     /\ hamming a b = Z.of_nat (hamming_distance a b)
     /\ (float_to_Q (simhash_similarity a b)
         == 1 - inject_Z (hamming a b) / 64)%Q
     /\ fleb f0_0 (simhash_similarity a b) = true
     /\ fleb (simhash_similarity a b) f1_0 = true)
  /\ (forall (views : list ContractView) (p : PairReport),
        p ∈ match_pairs views ->
        exists a b : ContractView,
          a ∈ views /\ b ∈ views
          /\ pr_simhash_sim p = simhash_similarity (cv_simhash64 a) (cv_simhash64 b)
          /\ pr_selector_jaccard p = jaccard (cv_selectors a) (cv_selectors b)
          /\ pr_score p = fadd (fmul f0_6 (pr_simhash_sim p))
                               (fmul f0_4 (pr_selector_jaccard p))).
Proof.
  split.
  - intros a b Ha Hb.
    pose proof (hamming_hamming_distance a b Ha Hb) as Hd.
    destruct (similarity_of_distance_spec _ (hamming_distance_le a b))
      as (HQ & H0 & H1).
    rewrite simhash_similarity_distance, Hd by done.
    by repeat split.
  - intros views p Hp. rewrite match_pairs_all_pairs in Hp.
    destruct (all_pairs_elem views p Hp) as (a & b & Ha & Hb & ->).
    exists a, b. by repeat split.
Qed.

Lemma similarity_and_score_witness :
  (0 <= 5 < 2 ^ 64 /\ 0 <= 3 < 2 ^ 64)
  /\ (float_to_Q (simhash_similarity 5 3) == 1 - inject_Z (hamming 5 3) / 64)%Q.
Proof.
  split; [lia|].
  apply (proj1 similarity_and_score 5 3); lia.
Defined.

(** C8: a view compared against itself has fingerprint similarity 1.0,
    selector Jaccard 1.0 and combined score 1.0. *)
Theorem self_similarity (A : ContractView) :
  simhash_similarity (cv_simhash64 A) (cv_simhash64 A) = f1_0
  /\ jaccard (cv_selectors A) (cv_selectors A) = f1_0
  /\ pr_simhash_sim (pair_report A A) = f1_0
  /\ pr_selector_jaccard (pair_report A A) = f1_0
  /\ pr_score (pair_report A A) = f1_0.
Proof.
  pose proof (simhash_similarity_self (cv_simhash64 A)) as Hs.
  pose proof (jaccard_self (cv_selectors A)) as Hj.
  unfold pair_report. cbn [pr_simhash_sim pr_selector_jaccard pr_score].
  rewrite Hs, Hj. do 4 (split; [reflexivity|]). apply score_self.
Qed.

(** ** Selector Jaccard *)

Lemma remove_dups_nil_iff (l : list string) :
  remove_dups l = [] <-> (list_to_set l : gset string) = ∅.
Proof.
  split.
  - intros He. apply set_eq. intros x.
    rewrite elem_of_list_to_set, <- elem_of_remove_dups, He. set_solver.
  - intros He. destruct (remove_dups l) as [|x k] eqn:Hk; [done|].
    assert (x ∈ (list_to_set l : gset string)) as Hx.
    { rewrite elem_of_list_to_set, <- elem_of_remove_dups, Hk. by left. }
    rewrite He in Hx. set_solver.
Qed.

Lemma size_intersection_lists (a b : list string) :
  size ((list_to_set a : gset string) ∩ list_to_set b)
  = length (list_intersection (remove_dups a) (remove_dups b)).
Proof.
  rewrite <- (size_list_to_set (C := gset string)
                (list_intersection (remove_dups a) (remove_dups b))).
  - f_equal. apply set_eq. intros x.
    rewrite elem_of_intersection, !elem_of_list_to_set,
      list_elem_of_intersection, !elem_of_remove_dups. done.
  - apply NoDup_list_intersection, NoDup_remove_dups.
Qed.

Lemma size_union_lists (a b : list string) :
  size ((list_to_set a : gset string) ∪ list_to_set b)
  = length (list_union (remove_dups a) (remove_dups b)).
Proof.
  rewrite <- (size_list_to_set (C := gset string)
                (list_union (remove_dups a) (remove_dups b))).
  - f_equal. apply set_eq. intros x.
    rewrite elem_of_union, !elem_of_list_to_set,
      list_elem_of_union, !elem_of_remove_dups. done.
  - apply NoDup_list_union; apply NoDup_remove_dups.
Qed.

(** The division of [jaccard] never divides by zero. *)
Lemma jaccard_divisor_positive (a b : list string) :
  (list_to_set a : gset string) <> ∅ ->
  (0 < size ((list_to_set a : gset string) ∪ list_to_set b))%nat.
Proof.
  intros Ha.
  assert (size ((list_to_set a : gset string) ∪ list_to_set b) <> 0%nat); [|lia].
  intros He%size_empty_inv%leibniz_equiv. apply Ha.
  apply (empty_union_L (C := gset string)) in He. tauto.
Qed.

(** C6: the selector Jaccard is 1.0 when both distinct-selector sets
    are empty, 0.0 when exactly one is, and otherwise the quotient of
    the sizes of their intersection and union. *)
Theorem jaccard_refines (a b : list string) :
  jaccard a b = jaccard_spec a b
  /\ jaccard [] [] = f1_0
  /\ (forall x : string, jaccard [x] [] = f0_0).
Proof.
  split; [|split; [vm_compute; reflexivity|]].
  - unfold jaccard, jaccard_spec.
    rewrite size_intersection_lists, size_union_lists.
    pose proof (remove_dups_nil_iff a) as Ha.
    pose proof (remove_dups_nil_iff b) as Hb.
    destruct (remove_dups a) as [|x a'] eqn:Ea;
      destruct (remove_dups b) as [|y b'] eqn:Eb.
    + by rewrite !bool_decide_eq_true_2 by (by apply Ha || by apply Hb).
    + rewrite (bool_decide_eq_true_2 (list_to_set a = ∅)) by (by apply Ha).
      rewrite (bool_decide_eq_false_2 (list_to_set b = ∅)); [done|].
      intros He. by apply Hb in He.
    + rewrite (bool_decide_eq_false_2 (list_to_set a = ∅)); [|intros He; by apply Ha in He].
      by rewrite (bool_decide_eq_true_2 (list_to_set b = ∅)) by (by apply Hb).
    + rewrite (bool_decide_eq_false_2 (list_to_set a = ∅)); [|intros He; by apply Ha in He].
      rewrite (bool_decide_eq_false_2 (list_to_set b = ∅)); [|intros He; by apply Hb in He].
      done.
  - intros x. unfold jaccard.
    rewrite (bool_decide_eq_false_2 (list_to_set [x] = ∅)) by set_solver.
    by rewrite (bool_decide_eq_true_2 (list_to_set [] = ∅)) by set_solver.
Qed.

(** ** The feature tokenizer *)

Section Tokens.
Variable lower : string -> string.

Lemma fold_left_snoc {A B : Type} (f : A -> B) (l : list A) (acc : list B) :
  fold_left (fun acc x => acc ++ [f x]) l acc = acc ++ map f l.
Proof.
  revert acc. induction l as [|x l IH]; intros acc; cbn [fold_left map].
  - by rewrite app_nil_r.
  - by rewrite IH, <- app_assoc.
Qed.

Lemma function_tokens_app (tokens : list (string * Z)) (it : abi_item) :
  function_tokens lower tokens it = tokens ++ item_function_tokens lower it.
Proof.
  unfold function_tokens, item_function_tokens, is_function_item.
  destruct (String.eqb _ "function"); cbn [negb].
  - rewrite (fold_left_snoc type_token). by rewrite <- !app_assoc.
  - by rewrite app_nil_r.
Qed.

Lemma event_tokens_app (tokens : list (string * Z)) (it : abi_item) :
  event_tokens lower tokens it = tokens ++ item_event_tokens lower it.
Proof.
  unfold event_tokens, item_event_tokens.
  destruct (it_type it) as [typ|].
  - destruct (String.eqb_spec typ "event") as [->|Hne].
    + rewrite bool_decide_eq_true_2 by done. by rewrite <- app_assoc.
    + rewrite bool_decide_eq_false_2 by congruence. by rewrite app_nil_r.
  - rewrite bool_decide_eq_false_2 by done. by rewrite app_nil_r.
Qed.

Lemma fold_left_flat_map {A B : Type} (step : list B -> A -> list B)
      (g : A -> list B) :
  (forall acc x, step acc x = acc ++ g x) ->
  forall l acc, fold_left step l acc = acc ++ flat_map g l.
Proof.
  intros Hstep. induction l as [|x l IH]; intros acc; cbn [fold_left flat_map].
  - by rewrite app_nil_r.
  - by rewrite IH, Hstep, <- app_assoc.
Qed.

Lemma contract_tokens_structure (abi : list abi_item) :
  contract_tokens lower abi =
  flat_map (item_function_tokens lower) abi
  ++ flat_map (item_event_tokens lower) abi
  ++ [("nfunc:" +:+ pretty (length (raw_functions abi)), 1);
      ("nevent:" +:+ pretty (length (raw_events abi)), 1);
      ("nsel:" +:+ pretty (length (raw_selectors abi)), 1)].
Proof.
  unfold contract_tokens, raw_functions, raw_events, raw_selectors, scan.
  destruct (fold_left classify abi ([], [], [])) as [[fns evs] sels].
  rewrite (fold_left_flat_map _ _ function_tokens_app).
  rewrite (fold_left_flat_map _ _ event_tokens_app).
  cbn [fst snd app]. by rewrite <- !app_assoc.
Qed.
End Tokens.

Lemma classify_selectors (acc : list string * list string * list string)
      (it : abi_item) :
  (classify acc it).2 = acc.2 ++ item_selectors it.
Proof.
  destruct acc as [[fns evs] sels].
  unfold classify, item_selectors, is_function_item.
  destruct (String.eqb _ "function"); [done|].
  destruct (String.eqb _ "event"); [by rewrite app_nil_r|].
  destruct (is_special _); by rewrite app_nil_r.
Qed.

Lemma scan_selectors (abi : list abi_item) :
  forall acc, (fold_left classify abi acc).2 = acc.2 ++ flat_map item_selectors abi.
Proof.
  induction abi as [|it abi IH]; intros acc; cbn [fold_left flat_map].
  - by rewrite app_nil_r.
  - by rewrite IH, classify_selectors, <- app_assoc.
Qed.

Lemma raw_selectors_flat_map (abi : list abi_item) :
  raw_selectors abi = flat_map item_selectors abi.
Proof. unfold raw_selectors, scan. by rewrite scan_selectors. Qed.

Lemma raw_selectors_length (abi : list abi_item) :
  length (raw_selectors abi) = length (List.filter is_function_item abi).
Proof.
  rewrite raw_selectors_flat_map.
  induction abi as [|it abi IH]; [done|].
  cbn [flat_map List.filter]. rewrite length_app, IH.
  unfold item_selectors. by destruct (is_function_item it).
Qed.

Lemma prefix_append (s1 s2 : string) : String.prefix s1 (s1 +:+ s2) = true.
Proof.
  induction s1 as [|c s1 IH]; [by destruct s2|].
  simpl. destruct (ascii_dec c c); [exact IH|done].
Qed.

Lemma is_nsel_token_weight (s : string) (w : Z) :
  w <> 1 -> is_nsel_token (s, w) = false.
Proof.
  intros Hw. unfold is_nsel_token. cbn [snd].
  destruct (Z.eqb_spec w 1); [done|apply andb_false_r].
Qed.

Lemma type_tokens_not_nsel (l : list abi_input) :
  List.filter is_nsel_token (map type_token l) = [].
Proof. induction l as [|inp l IH]; [done|]. cbn [map List.filter]. by rewrite IH. Qed.

Lemma function_tokens_not_nsel (lower : string -> string) (it : abi_item) :
  List.filter is_nsel_token (item_function_tokens lower it) = [].
Proof.
  unfold item_function_tokens. destruct (is_function_item it); [|done].
  rewrite List.filter_app, type_tokens_not_nsel, app_nil_r.
  cbn [List.filter]. by rewrite !is_nsel_token_weight by lia.
Qed.

Lemma event_tokens_not_nsel (lower : string -> string) (it : abi_item) :
  List.filter is_nsel_token (item_event_tokens lower it) = [].
Proof.
  unfold item_event_tokens. case_bool_decide; [|done].
  cbn [List.filter]. by rewrite !is_nsel_token_weight by lia.
Qed.

Lemma filter_flat_map_nil {A B : Type} (P : B -> bool) (g : A -> list B)
      (l : list A) :
  (forall x, List.filter P (g x) = []) -> List.filter P (flat_map g l) = [].
Proof.
  intros Hg. induction l as [|x l IH]; [done|].
  cbn [flat_map]. by rewrite List.filter_app, Hg, IH.
Qed.

Lemma insert_stable_length {A : Type} (lt : A -> A -> bool) (x : A) (l : list A) :
  length (insert_stable lt x l) = S (length l).
Proof.
  induction l as [|y l IH]; [done|].
  cbn [insert_stable]. destruct (lt y x); cbn [length]; by rewrite ?IH.
Qed.

Lemma sorted_length {A : Type} (lt : A -> A -> bool) (l : list A) :
  length (sorted lt l) = length l.
Proof.
  induction l as [|x l IH]; [done|]. cbn [sorted foldr length].
  rewrite insert_stable_length. f_equal. exact IH.
Qed.

Lemma size_list_to_set_remove_dups (l : list string) :
  size (list_to_set l : gset string) = length (remove_dups l).
Proof.
  rewrite <- (size_list_to_set (C := gset string) (remove_dups l))
    by apply NoDup_remove_dups.
  f_equal. apply set_eq. intros x.
  by rewrite !elem_of_list_to_set, elem_of_remove_dups.
Qed.

Lemma remove_dups_length_le (l : list string) :
  (length (remove_dups l) <= length l)%nat.
Proof.
  induction l as [|x l IH]; [done|]. cbn [remove_dups].
  case_decide; cbn [length]; lia.
Qed.

(** C3, as the code has it: among the tokens of weight 1 exactly one
    starts with nsel:, and its number is the length of the selector
    list before deduplication, that is the number of function-kind
    members; the distinct selectors of the view are at most that many,
    and exactly that many when no selector repeats. *)
Theorem nsel_token (lower basename splitext_root : string -> string)
        (path : string) (abi : list abi_item) :
  let sels := raw_selectors abi in
  let view := extract_contract_view lower basename splitext_root path abi in
  List.filter is_nsel_token (contract_tokens lower abi)
    = [("nsel:" +:+ pretty (length sels), 1)]
  /\ length sels = length (List.filter is_function_item abi)
  /\ length (cv_selectors view) = size (list_to_set sels : gset string)
  /\ (length (cv_selectors view) <= length sels)%nat
  /\ (NoDup sels -> length (cv_selectors view) = length sels).
Proof.
  intros sels view.
  assert (Hview : length (cv_selectors view) = size (list_to_set sels : gset string)).
  { unfold view, extract_contract_view, sels, raw_selectors, scan.
    destruct (fold_left classify abi ([], [], [])) as [[fns evs] sels'].
    cbn [cv_selectors snd]. unfold sorted_set. by rewrite sorted_length. }
  split; [|split; [apply raw_selectors_length|split; [exact Hview|split]]].
  - rewrite contract_tokens_structure, !List.filter_app.
    rewrite (filter_flat_map_nil _ _ _ (function_tokens_not_nsel lower)).
    rewrite (filter_flat_map_nil _ _ _ (event_tokens_not_nsel lower)).
    cbn [app List.filter].
    assert (Hf : forall s, is_nsel_token ("nfunc:" +:+ s, 1) = false) by done.
    assert (He : forall s, is_nsel_token ("nevent:" +:+ s, 1) = false) by done.
    assert (Hs : forall s, is_nsel_token ("nsel:" +:+ s, 1) = true).
    { intros s. unfold is_nsel_token. cbn [fst snd]. by rewrite prefix_append. }
    by rewrite Hf, He, Hs.
  - rewrite Hview, size_list_to_set_remove_dups. apply remove_dups_length_le.
  - intros Hnd. rewrite Hview. by apply size_list_to_set.
Qed.

(** C3 as stated fails: two members with the same signature have one
    distinct selector, and the token emitted is nsel:2. *)
Lemma nsel_counts_duplicates :
  let abi := [f_view; f_view] in
  let view := extract_contract_view ascii_lower posix_basename id "abis/dup.json" abi in
  cv_selectors view = ["0x26121ff0"]
  /\ ~ In ("nsel:" +:+ pretty (length (cv_selectors view)), 1)
          (contract_tokens ascii_lower abi)
  /\ contract_tokens ascii_lower abi =
       [("f", 3); ("f()", 5); ("mut:view", 2);
        ("f", 3); ("f()", 5); ("mut:view", 2);
        ("nfunc:2", 1); ("nevent:0", 1); ("nsel:2", 1)].
Proof.
  vm_compute. split; [reflexivity|]. split; [|reflexivity].
  intros H. repeat (destruct H as [H|H]; [discriminate H|]). exact H.
Qed.

Section TokenFacts.
Variable lower : string -> string.

Lemma special_items_contribute_no_tokens (it : abi_item) (typ : string) :
  it_type it = Some typ -> is_special typ = true ->
  item_function_tokens lower it = [] /\ item_event_tokens lower it = [].
Proof.
  intros Ht Hs. unfold item_function_tokens, item_event_tokens, is_function_item.
  rewrite Ht. change (default "function" (Some typ)) with typ.
  unfold is_special in Hs.
  destruct (String.eqb_spec typ "function") as [->|_]; [discriminate Hs|].
  split; [reflexivity|]. rewrite bool_decide_eq_false_2; [reflexivity|].
  intros [= ->]. discriminate Hs.
Qed.

(** C2 at a payable constructor: the pseudo-signature enters the
    function list, and the token list holds the three counters only. *)
Theorem constructor_emits_no_token :
  let abi := [payable_constructor] in
  raw_functions abi = ["__constructor__(payable)"]
  /\ contract_tokens lower abi = [("nfunc:1", 1); ("nevent:0", 1); ("nsel:0", 1)]
  /\ ~ In ("__constructor__(payable)", 3) (contract_tokens lower abi).
Proof.
  vm_compute. split; [reflexivity|]. split; [reflexivity|].
  intros H. repeat (destruct H as [H|H]; [discriminate H|]). exact H.
Qed.

Lemma classify_default_type (acc : list string * list string * list string)
      (it : abi_item) :
  classify acc (with_default_type it) = classify acc it.
Proof.
  unfold classify, with_default_type. destruct acc as [[fns evs] sels].
  cbn [it_type it_name it_inputs it_stateMutability]. by destruct (it_type it).
Qed.

Lemma function_tokens_default_type (tokens : list (string * Z)) (it : abi_item) :
  function_tokens lower tokens (with_default_type it) = function_tokens lower tokens it.
Proof.
  unfold function_tokens, with_default_type.
  cbn [it_type it_name it_inputs it_stateMutability]. by destruct (it_type it).
Qed.

Lemma event_tokens_default_type (tokens : list (string * Z)) (it : abi_item) :
  event_tokens lower tokens (with_default_type it) = event_tokens lower tokens it.
Proof.
  unfold event_tokens, with_default_type.
  cbn [it_type it_name it_inputs it_stateMutability]. by destruct (it_type it).
Qed.

Lemma fold_left_map_ext {A B : Type} (f : B -> A -> B) (g : A -> A) :
  (forall acc x, f acc (g x) = f acc x) ->
  forall l acc, fold_left f (map g l) acc = fold_left f l acc.
Proof.
  intros Hfg. induction l as [|x l IH]; intros acc; [done|].
  cbn [map fold_left]. by rewrite Hfg, IH.
Qed.

Lemma contract_tokens_default_type (abi : list abi_item) :
  contract_tokens lower (map with_default_type abi) = contract_tokens lower abi.
Proof.
  unfold contract_tokens.
  rewrite (fold_left_map_ext _ _ classify_default_type).
  rewrite (fold_left_map_ext _ _ function_tokens_default_type).
  by rewrite (fold_left_map_ext _ _ event_tokens_default_type).
Qed.

Variables basename splitext_root : string -> string.

(** C10: a member without a type key is processed as a function. Giving
    it the key "function" changes neither the view nor the tokens; and
    alone it yields its signature, its selector, and the tokens name
    (3), signature (5), mutability (2) and one per input type (1). *)
Theorem absent_type_is_function (path : string) (abi : list abi_item) :
  extract_contract_view lower basename splitext_root path (map with_default_type abi)
    = extract_contract_view lower basename splitext_root path abi
  /\ contract_tokens lower (map with_default_type abi) = contract_tokens lower abi
  /\ forall (nm : option string) (ins : option (list abi_input)) (st : option string),
       let it := {| it_type := None; it_name := nm; it_inputs := ins;
                    it_stateMutability := st |} in
       let sig := fn_signature (default "" nm) (default [] ins) in
       scan [it] = ([sig], [], [fourbyte sig])
       /\ contract_tokens lower [it] =
            [(lower (default "" nm), 3); (lower sig, 5);
             ("mut:" +:+ default "nonpayable" st, 2)]
            ++ map type_token (default [] ins)
            ++ [("nfunc:1", 1); ("nevent:0", 1); ("nsel:1", 1)].
Proof.
  split; [|split; [apply contract_tokens_default_type|]].
  - unfold extract_contract_view.
    rewrite (fold_left_map_ext _ _ classify_default_type).
    by rewrite contract_tokens_default_type.
  - intros nm ins st it sig. split; [reflexivity|].
    rewrite contract_tokens_structure.
    assert (Hp1 : pretty 1%nat = "1") by (vm_compute; reflexivity).
    assert (Hp0 : pretty 0%nat = "0") by (vm_compute; reflexivity).
    unfold raw_functions, raw_events, raw_selectors.
    change (scan [it]) with ([sig], @nil string, [fourbyte sig]).
    cbn [fst snd length]. rewrite Hp1, Hp0.
    cbn [flat_map]. unfold item_function_tokens, item_event_tokens.
    change (is_function_item it) with true.
    rewrite bool_decide_eq_false_2 by done.
    cbn [it_name it_inputs it_stateMutability it].
    by rewrite !app_nil_r, <- !app_assoc.
Qed.
End TokenFacts.

(** ** Ranking *)

Lemma fltb_ord (x y : float) :
  is_nan x = false -> is_nan y = false ->
  (fltb x y = true <-> lex3_lt (ord x) (ord y)).
Proof.
  intros Hx Hy. unfold fltb, SFltb, lex3_lt.
  destruct x as [sx|sx| |sx mx ex], y as [sy|sy| |sy my ey]; try discriminate;
    cbn [SFcompare ord fst snd];
    try (destruct sx; try destruct sy; cbn; split; (discriminate || lia || done)).
  destruct sx, sy; cbn [fst snd]; try (split; (discriminate || lia || done)).
  - destruct (Z.compare_spec ex ey); [subst|split; (discriminate || lia || done)..].
    rewrite Pos.compare_cont_spec. cbn [Pos.switch_Eq].
    destruct (Pos.compare_spec mx my); cbn; split; (discriminate || lia || done).
  - destruct (Z.compare_spec ex ey); [subst|split; (discriminate || lia || done)..].
    rewrite Pos.compare_cont_spec. cbn [Pos.switch_Eq].
    destruct (Pos.compare_spec mx my); cbn; split; (discriminate || lia || done).
Qed.

Lemma feqb_ord (x y : float) :
  is_nan x = false -> is_nan y = false ->
  (feqb x y = true <-> ord x = ord y).
Proof.
  intros Hx Hy. unfold feqb, SFeqb.
  destruct x as [sx|sx| |sx mx ex], y as [sy|sy| |sy my ey]; try discriminate;
    cbn [SFcompare ord fst snd];
    try (destruct sx; try destruct sy; cbn; split; (discriminate || congruence || done)).
  destruct sx, sy; cbn [fst snd]; try (split; (discriminate || congruence || done)).
  - destruct (Z.compare_spec ex ey);
      [subst|split; [discriminate|intros [=]; lia]..].
    rewrite Pos.compare_cont_spec. cbn [Pos.switch_Eq].
    destruct (Pos.compare_spec mx my); cbn; split;
      (discriminate || (intros [=]; lia) || congruence || done).
  - destruct (Z.compare_spec ex ey);
      [subst|split; [discriminate|intros [=]; lia]..].
    rewrite Pos.compare_cont_spec. cbn [Pos.switch_Eq].
    destruct (Pos.compare_spec mx my); cbn; split;
      (discriminate || (intros [=]; lia) || congruence || done).
Qed.

Lemma ord_fneg (x : float) :
  ord (fneg x) = (- (ord x).1.1, - (ord x).1.2, - (ord x).2).
Proof. destruct x as [s|s| |s m e]; try destruct s; cbn; f_equal; try f_equal; lia. Qed.

Lemma is_nan_fneg (x : float) : is_nan (fneg x) = is_nan x.
Proof. by destruct x. Qed.

Section StableSort.
Context {A : Type} (lt : A -> A -> bool) (ok : A -> Prop).

Hypothesis lt_asym : forall x y, ok x -> ok y -> lt x y = true -> lt y x = false.
Hypothesis lt_negtrans : forall x y z, ok x -> ok y -> ok z ->
  lt x y = false -> lt y z = false -> lt x z = false.

Lemma insert_stable_permutation (x : A) (l : list A) :
  Permutation (insert_stable lt x l) (x :: l).
Proof.
  induction l as [|y l IH]; [done|]. cbn [insert_stable].
  destruct (lt y x); [|done].
  rewrite IH. apply perm_swap.
Qed.

Lemma sorted_permutation (l : list A) : Permutation (sorted lt l) l.
Proof.
  induction l as [|x l IH]; [done|]. cbn [sorted foldr].
  rewrite insert_stable_permutation. by apply perm_skip.
Qed.

Lemma insert_stable_sorted (x : A) (l : list A) :
  ok x -> Forall ok l ->
  StronglySorted (fun a b => lt b a = false) l ->
  StronglySorted (fun a b => lt b a = false) (insert_stable lt x l).
Proof.
  intros Hx Hok Hs. induction Hs as [|y l Hs IH Hy]; cbn [insert_stable].
  - repeat constructor.
  - apply Forall_cons in Hok. destruct Hok as [Hoky Hok].
    destruct (lt y x) eqn:Hyx.
    + constructor; [by apply IH|].
      rewrite (insert_stable_permutation x l). constructor; [|exact Hy].
      by apply lt_asym.
    + constructor; [by constructor|]. constructor; [exact Hyx|].
      rewrite Forall_forall in Hy, Hok |- *. intros z Hz.
      apply (lt_negtrans z y x); auto.
Qed.

Lemma sorted_sorted (l : list A) :
  Forall ok l -> StronglySorted (fun a b => lt b a = false) (sorted lt l).
Proof.
  induction 1 as [|x l Hx Hl IH]; cbn [sorted foldr]; [constructor|].
  apply insert_stable_sorted; [done| |exact IH].
  fold (sorted lt l). by rewrite sorted_permutation.
Qed.

(** Stability: a class [Q] of elements none of which is below another
    keeps its order. *)
Lemma insert_stable_filter (Q : A -> bool) (x : A) (l : list A) :
  (forall y, In y l -> Q y = true -> Q x = true -> lt y x = false) ->
  List.filter Q (insert_stable lt x l) = List.filter Q (x :: l).
Proof.
  induction l as [|y l IH]; intros HQ; [done|]. cbn [insert_stable].
  destruct (lt y x) eqn:Hyx; [|done].
  cbn [List.filter]. rewrite IH by (intros z Hz; apply HQ; by right).
  cbn [List.filter].
  destruct (Q y) eqn:Hy, (Q x) eqn:Hqx; try done.
  rewrite HQ in Hyx; [done|by left|done|done].
Qed.

Lemma sorted_filter (Q : A -> bool) (l : list A) :
  (forall x y, In x l -> In y l -> Q x = true -> Q y = true -> lt x y = false) ->
  List.filter Q (sorted lt l) = List.filter Q l.
Proof.
  induction l as [|x l IH]; intros HQ; [done|]. cbn [sorted foldr].
  fold (sorted lt l). rewrite insert_stable_filter.
  - cbn [List.filter]. rewrite IH; [done|].
    intros a b Ha Hb. apply HQ; by right.
  - intros y Hy Hqy Hqx. apply HQ; [right|by left|done|done].
    apply (Permutation_in _ (sorted_permutation l)) in Hy. exact Hy.
Qed.

End StableSort.

Lemma fltb_fneg (a b : float) :
  is_nan a = false -> is_nan b = false -> fltb (fneg a) (fneg b) = fltb b a.
Proof.
  intros Ha Hb. apply eq_true_iff_eq.
  rewrite !fltb_ord, !ord_fneg by (by rewrite ?is_nan_fneg).
  unfold lex3_lt. destruct (ord a) as [[a1 a2] a3], (ord b) as [[b1 b2] b3].
  cbn [fst snd]. lia.
Qed.

Lemma feqb_fneg (a b : float) :
  is_nan a = false -> is_nan b = false -> feqb (fneg a) (fneg b) = feqb a b.
Proof.
  intros Ha Hb. apply eq_true_iff_eq.
  rewrite !feqb_ord, !ord_fneg by (by rewrite ?is_nan_fneg).
  destruct (ord a) as [[a1 a2] a3], (ord b) as [[b1 b2] b3].
  cbn [fst snd]. split; intros [=]; f_equal; try f_equal; lia.
Qed.

(** The code's comparison of negated keys, on the fields themselves. *)
Lemma key_lt_fields (p q : PairReport) :
  valid_key p -> valid_key q ->
  key_lt p q =
  if negb (feqb (pr_score p) (pr_score q)) then fltb (pr_score q) (pr_score p)
  else if negb (feqb (pr_selector_jaccard p) (pr_selector_jaccard q))
       then fltb (pr_selector_jaccard q) (pr_selector_jaccard p)
  else if negb (feqb (pr_simhash_sim p) (pr_simhash_sim q))
       then fltb (pr_simhash_sim q) (pr_simhash_sim p)
  else false.
Proof.
  intros (Hp1 & Hp2 & Hp3) (Hq1 & Hq2 & Hq3).
  unfold key_lt, sort_key, tuple_lt.
  by rewrite !fltb_fneg, !feqb_fneg.
Qed.

Lemma feqb_ord' (x y : float) :
  is_nan x = false -> is_nan y = false ->
  (feqb x y = true <-> lex3_eq (ord x) (ord y)).
Proof.
  intros Hx Hy. rewrite feqb_ord by done. unfold lex3_eq.
  destruct (ord x) as [[a1 a2] a3], (ord y) as [[b1 b2] b3]. cbn [fst snd].
  split; [by intros [= -> -> ->]|by intros (-> & -> & ->)].
Qed.

Lemma ranks_above_klt (p q : PairReport) :
  valid_key p -> valid_key q -> (ranks_above p q <-> klt p q).
Proof.
  intros (Hp1 & Hp2 & Hp3) (Hq1 & Hq2 & Hq3). unfold ranks_above, klt.
  by rewrite !fltb_ord, !feqb_ord' by done.
Qed.

Lemma bool_iff_cases (b : bool) (P : Prop) :
  (b = true <-> P) -> (b = true /\ P) \/ (b = false /\ ~ P).
Proof. destruct b; intuition congruence. Qed.

Lemma key_lt_klt (p q : PairReport) :
  valid_key p -> valid_key q -> (key_lt p q = true <-> klt p q).
Proof.
  intros Hp Hq. rewrite key_lt_fields by done.
  destruct Hp as (Hp1 & Hp2 & Hp3), Hq as (Hq1 & Hq2 & Hq3). unfold klt.
  unfold lex3_lt, lex3_eq.
  destruct (bool_iff_cases _ _ (feqb_ord' _ _ Hp1 Hq1)) as [[-> E1]|[-> E1]];
    cbn [negb]; unfold lex3_eq in E1.
  2: { destruct (bool_iff_cases _ _ (fltb_ord _ _ Hq1 Hp1)) as [[-> L1]|[-> L1]];
       unfold lex3_lt in L1; (split; [try discriminate; tauto|try tauto; lia]). }
  destruct (bool_iff_cases _ _ (feqb_ord' _ _ Hp2 Hq2)) as [[-> E2]|[-> E2]];
    cbn [negb]; unfold lex3_eq in E2.
  2: { destruct (bool_iff_cases _ _ (fltb_ord _ _ Hq2 Hp2)) as [[-> L2]|[-> L2]];
       unfold lex3_lt in L2; (split; [try discriminate; tauto|try tauto; lia]). }
  destruct (bool_iff_cases _ _ (feqb_ord' _ _ Hp3 Hq3)) as [[-> E3]|[-> E3]];
    cbn [negb]; unfold lex3_eq in E3.
  2: { destruct (bool_iff_cases _ _ (fltb_ord _ _ Hq3 Hp3)) as [[-> L3]|[-> L3]];
       unfold lex3_lt in L3; (split; [try discriminate; tauto|try tauto; lia]). }
  split; [discriminate|lia].
Qed.

Lemma lexcmp_refl (a : list Z) : lexcmp a a = Eq.
Proof. induction a as [|x a IH]; [done|]. cbn. by rewrite Z.compare_refl. Qed.

Lemma lexcmp_eq (a b : list Z) :
  length a = length b -> lexcmp a b = Eq -> a = b.
Proof.
  revert b. induction a as [|x a IH]; intros [|y b] Hlen; try done.
  cbn [lexcmp]. destruct (Z.compare_spec x y); try done.
  intros He. f_equal; [done|]. apply IH; [|done]. cbn in Hlen. lia.
Qed.

Lemma lexcmp_antisym (a b : list Z) : lexcmp b a = CompOpp (lexcmp a b).
Proof.
  revert b. induction a as [|x a IH]; intros [|y b]; try done.
  cbn [lexcmp]. rewrite (Z.compare_antisym x y).
  destruct (x ?= y); cbn [CompOpp]; [apply IH|done|done].
Qed.

Lemma lexcmp_trans (a b c : list Z) :
  lexcmp a b = Lt -> lexcmp b c = Lt -> lexcmp a c = Lt.
Proof.
  revert b c. induction a as [|x a IH]; intros [|y b] [|z c]; try done.
  cbn [lexcmp].
  destruct (Z.compare_spec x y), (Z.compare_spec y z); try done; intros H1 H2.
  - subst. rewrite Z.compare_refl. by apply (IH b).
  - subst. by replace (y ?= z) with Lt by (symmetry; by apply Z.compare_lt_iff).
  - subst. by replace (x ?= z) with Lt by (symmetry; by apply Z.compare_lt_iff).
  - by replace (x ?= z) with Lt by (symmetry; apply Z.compare_lt_iff; lia).
Qed.

Lemma klt_lexcmp (p q : PairReport) : klt p q <-> lexcmp (kvec q) (kvec p) = Lt.
Proof.
  unfold klt, kvec, triple_list, lex3_lt, lex3_eq.
  destruct (ord (pr_score p)) as [[a1 a2] a3], (ord (pr_score q)) as [[b1 b2] b3],
    (ord (pr_selector_jaccard p)) as [[a4 a5] a6],
    (ord (pr_selector_jaccard q)) as [[b4 b5] b6],
    (ord (pr_simhash_sim p)) as [[a7 a8] a9],
    (ord (pr_simhash_sim q)) as [[b7 b8] b9].
  cbn [fst snd app lexcmp].
  destruct (Z.compare_spec b1 a1); [|split; [done|lia]|split; [lia|done]].
  destruct (Z.compare_spec b2 a2); [|split; [done|lia]|split; [lia|done]].
  destruct (Z.compare_spec b3 a3); [|split; [done|lia]|split; [lia|done]].
  destruct (Z.compare_spec b4 a4); [|split; [done|lia]|split; [lia|done]].
  destruct (Z.compare_spec b5 a5); [|split; [done|lia]|split; [lia|done]].
  destruct (Z.compare_spec b6 a6); [|split; [done|lia]|split; [lia|done]].
  destruct (Z.compare_spec b7 a7); [|split; [done|lia]|split; [lia|done]].
  destruct (Z.compare_spec b8 a8); [|split; [done|lia]|split; [lia|done]].
  destruct (Z.compare_spec b9 a9); [|split; [done|lia]|split; [lia|done]].
  split; [lia|done].
Qed.

Lemma kvec_length (p : PairReport) : length (kvec p) = 9%nat.
Proof. reflexivity. Qed.

Lemma klt_asym (p q : PairReport) : klt p q -> ~ klt q p.
Proof.
  rewrite !klt_lexcmp, (lexcmp_antisym (kvec q) (kvec p)).
  by intros ->.
Qed.

Lemma klt_negtrans (x y z : PairReport) : ~ klt x y -> ~ klt y z -> ~ klt x z.
Proof.
  rewrite !klt_lexcmp. intros Hxy Hyz Hxz.
  destruct (lexcmp (kvec y) (kvec x)) eqn:E1; [|done|].
  - apply lexcmp_eq in E1; [|by rewrite !kvec_length]. by rewrite E1 in Hyz.
  - apply Hyz. apply (lexcmp_trans _ (kvec x)); [done|].
    rewrite lexcmp_antisym, E1. done.
Qed.

Lemma tied_kvec (p q : PairReport) :
  valid_key p -> valid_key q -> (tied p q = true <-> kvec p = kvec q).
Proof.
  intros (Hp1 & Hp2 & Hp3) (Hq1 & Hq2 & Hq3). unfold tied, kvec, triple_list.
  rewrite !andb_true_iff, !feqb_ord by done.
  destruct (ord (pr_score p)) as [[a1 a2] a3], (ord (pr_score q)) as [[b1 b2] b3],
    (ord (pr_selector_jaccard p)) as [[a4 a5] a6],
    (ord (pr_selector_jaccard q)) as [[b4 b5] b6],
    (ord (pr_simhash_sim p)) as [[a7 a8] a9],
    (ord (pr_simhash_sim q)) as [[b7 b8] b9].
  cbn [fst snd app]. split.
  - by intros [[[= -> -> ->] [= -> -> ->]] [= -> -> ->]].
  - by intros [= -> -> -> -> -> -> -> -> ->].
Qed.

(** Where [q] does not rank above [p], [p] ranks above [q] or ties it. *)
Lemma klt_total (p q : PairReport) :
  ~ klt q p -> klt p q \/ kvec p = kvec q.
Proof.
  rewrite !klt_lexcmp. intros Hqp.
  destruct (lexcmp (kvec q) (kvec p)) eqn:E; [|by left|].
  - right. symmetry. apply lexcmp_eq; [by rewrite !kvec_length|done].
  - exfalso. apply Hqp. by rewrite lexcmp_antisym, E.
Qed.

Lemma nonneg_not_nan (x : float) : nonneg x = true -> is_nan x = false.
Proof. by destruct x. Qed.

Lemma shr_1_nonneg (r : shr_record) : 0 <= shr_m r -> 0 <= shr_m (shr_1 r).
Proof. destruct r as [[|[p|p|]|p] r s]; cbn; lia. Qed.

Lemma iter_pos_nonneg (n : positive) : forall r : shr_record,
  0 <= shr_m r -> 0 <= shr_m (SpecFloat.iter_pos shr_1 n r).
Proof.
  induction n as [n IH|n IH|]; intros r Hr; cbn [SpecFloat.iter_pos].
  - by apply IH, IH, shr_1_nonneg.
  - by apply IH, IH.
  - by apply shr_1_nonneg.
Qed.

Lemma shr_nonneg (r : shr_record) (e n : Z) :
  0 <= shr_m r -> 0 <= shr_m (shr r e n).1.
Proof.
  intros Hr. unfold shr. destruct n; cbn [fst]; [done| |done].
  by apply iter_pos_nonneg.
Qed.

Lemma shr_record_of_loc_m (m : Z) (l : location) :
  shr_m (shr_record_of_loc m l) = m.
Proof. by destruct l as [|[]]. Qed.

Lemma round_nearest_even_nonneg (m : Z) (l : location) :
  0 <= m -> 0 <= round_nearest_even m l.
Proof. intros Hm. destruct l as [|[]]; cbn; [done|destruct (Z.even m); lia|done|lia]. Qed.

Lemma binary_round_aux_nonneg (mx ex : Z) (lx : location) :
  0 <= mx -> nonneg (binary_round_aux 53 1024 false mx ex lx) = true.
Proof.
  intros Hm. unfold binary_round_aux, shr_fexp.
  pose proof (shr_nonneg (shr_record_of_loc mx lx) ex
                (fexp 53 1024 (Zdigits2 mx + ex) - ex)) as H1.
  rewrite shr_record_of_loc_m in H1. specialize (H1 Hm).
  destruct (shr (shr_record_of_loc mx lx) ex _) as [mrs' e'].
  cbn [fst] in H1.
  set (m1 := round_nearest_even (shr_m mrs') (loc_of_shr_record mrs')).
  assert (Hm1 : 0 <= m1) by (by apply round_nearest_even_nonneg).
  pose proof (shr_nonneg (shr_record_of_loc m1 loc_Exact) e'
                (fexp 53 1024 (Zdigits2 m1 + e') - e')) as H2.
  rewrite shr_record_of_loc_m in H2. specialize (H2 Hm1).
  destruct (shr (shr_record_of_loc m1 loc_Exact) e' _) as [mrs'' e''].
  cbn [fst] in H2.
  destruct (shr_m mrs'') as [|p|p]; [done| |lia].
  by destruct (e'' <=? 1024 - 53).
Qed.

Lemma fmul_nonneg (m : positive) (e : Z) (y : float) :
  nonneg y = true -> nonneg (fmul (S754_finite false m e) y) = true.
Proof.
  destruct y as [s|s| |s my ey]; try done.
  destruct s; [done|]. intros _. unfold fmul, SFmul. cbn [xorb].
  by apply binary_round_aux_nonneg.
Qed.

Lemma fadd_nonneg (x y : float) :
  nonneg x = true -> nonneg y = true -> nonneg (fadd x y) = true.
Proof.
  destruct x as [sx|sx| |sx mx ex], y as [sy|sy| |sy my ey]; try done;
    try (destruct sx; try destruct sy; done).
  destruct sx, sy; try done. intros _ _.
  unfold fadd, SFadd, cond_Zopp.
  set (a := (shl_align mx ex (Z.min ex ey)).1).
  set (b := (shl_align my ey (Z.min ex ey)).1).
  change (Z.pos a + Z.pos b) with (Z.pos (a + b)).
  unfold binary_normalize, binary_round.
  destruct (shl_align (a + b) _ _) as [mz ez].
  by apply binary_round_aux_nonneg.
Qed.

Lemma int_truediv_nonneg (a b : nat) :
  (0 < b)%nat -> nonneg (int_truediv (Z.of_nat a) (Z.of_nat b)) = true.
Proof.
  intros Hb. unfold int_truediv, exact_of_int.
  destruct (Z.of_nat b) as [|pb|pb] eqn:Eb; [lia| |lia].
  destruct (Z.of_nat a) as [|pa|pa] eqn:Ea; [done| |lia].
  unfold fdiv, SFdiv, SFdiv_core_binary. cbn [xorb].
  set (s := 0 - 0 - _).
  set (m' := match s with Z.pos _ => Z.shiftl (Z.pos pa) s | 0 => Z.pos pa | _ => 0 end).
  assert (Hm' : 0 <= m').
  { unfold m'. destruct s; [lia| |lia]. apply Z.shiftl_nonneg. lia. }
  pose proof (Z.div_pos m' (Z.pos pb) Hm' ltac:(lia)) as Hq.
  unfold Z.div in Hq. destruct (Z.div_eucl m' (Z.pos pb)) as [q r].
  by apply binary_round_aux_nonneg.
Qed.

Lemma jaccard_nonneg (a b : list string) : nonneg (jaccard a b) = true.
Proof.
  unfold jaccard.
  destruct (decide (list_to_set a =@{gset string} ∅)) as [Ha|Ha];
    destruct (decide (list_to_set b =@{gset string} ∅)) as [Hb|Hb];
    rewrite ?(bool_decide_eq_true_2 _ Ha), ?(bool_decide_eq_true_2 _ Hb),
      ?(bool_decide_eq_false_2 _ Ha), ?(bool_decide_eq_false_2 _ Hb);
    cbn [andb orb]; try done.
  apply int_truediv_nonneg.
  assert (size (list_to_set a ∪ list_to_set b : gset string) <> 0%nat); [|lia].
  intros He%size_empty_inv%leibniz_equiv. apply Ha.
  apply (empty_union_L (C := gset string)) in He. tauto.
Qed.

Lemma similarity_nonneg_finite (k : nat) :
  (k <= 64)%nat ->
  nonneg (similarity_of_distance k) = true
  /\ nonneg (fmul f0_6 (similarity_of_distance k)) = true
  /\ (forall y, nonneg y = true ->
        nonneg (fadd (fmul f0_6 (similarity_of_distance k)) y) = true).
Proof.
  intros Hk. split; [|split].
  - assert (Hall : forallb (fun k => nonneg (similarity_of_distance k)) (seq 0 65) = true)
      by (vm_compute; reflexivity).
    rewrite forallb_forall in Hall. apply Hall, in_seq. lia.
  - assert (Hall : forallb (fun k => nonneg (fmul f0_6 (similarity_of_distance k)))
                           (seq 0 65) = true) by (vm_compute; reflexivity).
    rewrite forallb_forall in Hall. apply Hall, in_seq. lia.
  - intros y Hy. apply fadd_nonneg; [|done].
    assert (Hall : forallb (fun k => nonneg (fmul f0_6 (similarity_of_distance k)))
                           (seq 0 65) = true) by (vm_compute; reflexivity).
    rewrite forallb_forall in Hall. apply Hall, in_seq. lia.
Qed.

Lemma pair_report_valid (a b : ContractView) :
  fingerprint_ok a -> fingerprint_ok b -> valid_key (pair_report a b).
Proof.
  intros Ha Hb. unfold valid_key, pair_report.
  cbn [pr_score pr_selector_jaccard pr_simhash_sim].
  rewrite (simhash_similarity_distance _ _ Ha Hb).
  destruct (similarity_nonneg_finite _ (hamming_distance_le (cv_simhash64 a) (cv_simhash64 b)))
    as (Hs & _ & Hadd).
  pose proof (jaccard_nonneg (cv_selectors a) (cv_selectors b)) as Hj.
  split; [|split]; apply nonneg_not_nan; [|done|done].
  apply Hadd. unfold f0_4. by apply fmul_nonneg.
Qed.

Lemma all_pairs_valid (views : list ContractView) :
  Forall fingerprint_ok views -> Forall valid_key (all_pairs views).
Proof.
  induction 1 as [|a rest Ha Hrest IH]; cbn [all_pairs]; [constructor|].
  apply Forall_app. split; [|exact IH].
  apply Forall_forall. intros p Hp%list_elem_of_fmap.
  destruct Hp as (b & -> & Hb).
  apply pair_report_valid; [done|].
  rewrite Forall_forall in Hrest. by apply Hrest.
Qed.

Lemma extract_fingerprint_ok (lower basename splitext_root : string -> string)
      (path : string) (abi : list abi_item) :
  fingerprint_ok (extract_contract_view lower basename splitext_root path abi).
Proof.
  unfold fingerprint_ok, extract_contract_view.
  destruct (fold_left classify abi ([], [], [])) as [[fns evs] sels].
  cbn [cv_simhash64]. apply simhash64_range.
Qed.

Lemma key_lt_asym (x y : PairReport) :
  valid_key x -> valid_key y -> key_lt x y = true -> key_lt y x = false.
Proof.
  intros Hx Hy Hxy. apply (key_lt_klt x y Hx Hy) in Hxy.
  apply klt_asym in Hxy. destruct (key_lt y x) eqn:E; [|done].
  by apply (key_lt_klt y x Hy Hx) in E.
Qed.

Lemma key_lt_false (x y : PairReport) :
  valid_key x -> valid_key y -> (key_lt x y = false <-> ~ klt x y).
Proof.
  intros Hx Hy. rewrite <- (key_lt_klt x y Hx Hy). by destruct (key_lt x y).
Qed.

Lemma key_lt_negtrans (x y z : PairReport) :
  valid_key x -> valid_key y -> valid_key z ->
  key_lt x y = false -> key_lt y z = false -> key_lt x z = false.
Proof.
  intros Hx Hy Hz. rewrite !key_lt_false by done. apply klt_negtrans.
Qed.

Lemma StronglySorted_weaken {A : Type} (R R' : A -> A -> Prop) (ok : A -> Prop)
      (l : list A) :
  (forall x y, ok x -> ok y -> R x y -> R' x y) ->
  Forall ok l -> StronglySorted R l -> StronglySorted R' l.
Proof.
  intros HR Hok Hs. induction Hs as [|x l Hs IH Hx]; [constructor|].
  apply Forall_cons in Hok. destruct Hok as [Hokx Hok].
  constructor; [by apply IH|].
  rewrite Forall_forall in Hx, Hok |- *. intros y Hy. apply HR; auto.
Qed.

Lemma rank_descending (pairs : list PairReport) :
  Forall valid_key pairs ->
  StronglySorted (fun p q => ranks_above p q \/ tied p q = true) (rank pairs).
Proof.
  intros Hv. unfold rank.
  apply (StronglySorted_weaken (fun a b => key_lt b a = false) _ valid_key).
  - intros p q Hp Hq Hqp. apply (key_lt_false q p Hq Hp) in Hqp.
    destruct (klt_total p q Hqp) as [Hlt|Heq].
    + left. by apply ranks_above_klt.
    + right. by apply tied_kvec.
  - by rewrite (sorted_permutation key_lt pairs).
  - apply (sorted_sorted key_lt valid_key key_lt_asym key_lt_negtrans). exact Hv.
Qed.

Lemma rank_stable (pairs : list PairReport) (p : PairReport) :
  Forall valid_key pairs -> valid_key p ->
  List.filter (tied p) (rank pairs) = List.filter (tied p) pairs.
Proof.
  intros Hv Hp. unfold rank. apply sorted_filter.
  intros x y Hx Hy Hpx Hpy. rewrite Forall_forall in Hv.
  assert (Hvx : valid_key x) by (by apply Hv, list_elem_of_In).
  assert (Hvy : valid_key y) by (by apply Hv, list_elem_of_In).
  apply (tied_kvec p x Hp Hvx) in Hpx. apply (tied_kvec p y Hp Hvy) in Hpy.
  apply key_lt_false; [done|done|].
  rewrite klt_lexcmp, <- Hpx, <- Hpy, lexcmp_refl. done.
Qed.

Section Ranking.
Variables lower basename splitext_root : string -> string.

(** C9: for at least two interfaces, the double loop produces the
    N(N-1)/2 reports of the unordered pairs; the ranking is a
    permutation of them, sorted descending by (score, selector Jaccard,
    fingerprint similarity), in which the reports tied on all three keys
    keep the order of the loop; and the output is the first max(1, top)
    reports of the full ranking. *)
Theorem match_cmd_ranking (files : list (string * list abi_item)) (top : Z) :
  (2 <= length files)%nat ->
  let views := map (fun f => extract_contract_view lower basename splitext_root
                                                   f.1 f.2) files in
  let pairs := match_pairs views in
  match_cmd lower basename splitext_root files top
    = Some (firstn (Z.to_nat (Z.max 1 top)) (rank pairs))
  /\ pairs = all_pairs views
  /\ length pairs = (length files * (length files - 1) / 2)%nat
  /\ Permutation (rank pairs) pairs
  /\ StronglySorted (fun p q => ranks_above p q \/ tied p q = true) (rank pairs)
  /\ (forall p, In p pairs ->
        List.filter (tied p) (rank pairs) = List.filter (tied p) pairs).
Proof.
  intros Hn views pairs.
  assert (Hpairs : pairs = all_pairs views) by apply match_pairs_all_pairs.
  assert (Hv : Forall valid_key pairs).
  { rewrite Hpairs. apply all_pairs_valid. unfold views.
    apply Forall_forall. intros v Hv%list_elem_of_fmap.
    destruct Hv as (f & -> & _). apply extract_fingerprint_ok. }
  split; [|split; [exact Hpairs|split; [|split; [|split]]]].
  - unfold match_cmd. fold views. fold pairs.
    destruct (length files <? 2)%nat eqn:E; [|done].
    apply Nat.ltb_lt in E. lia.
  - rewrite Hpairs, all_pairs_length. unfold views. by rewrite length_map.
  - apply sorted_permutation.
  - by apply rank_descending.
  - intros p Hp. apply rank_stable; [done|].
    rewrite Forall_forall in Hv. by apply Hv, list_elem_of_In.
Qed.
End Ranking.

Lemma match_cmd_ranking_witness :
  (2 <= length sample_files)%nat
  /\ Permutation
       (rank (match_pairs
                (map (fun f => extract_contract_view ascii_lower posix_basename id
                                                     f.1 f.2) sample_files)))
       (match_pairs
          (map (fun f => extract_contract_view ascii_lower posix_basename id
                                               f.1 f.2) sample_files)).
Proof.
  assert (H : (2 <= length sample_files)%nat) by (unfold sample_files; cbn [length]; lia).
  split; [exact H|].
  exact (proj1 (proj2 (proj2 (proj2
           (match_cmd_ranking ascii_lower posix_basename id sample_files 20 H))))).
Defined.

Lemma nsel_token_witness :
  NoDup (raw_selectors [f_view])
  /\ length (cv_selectors
               (extract_contract_view ascii_lower posix_basename id
                                      "abis/a.json" [f_view]))
     = length (raw_selectors [f_view]).
Proof.
  assert (H : NoDup (raw_selectors [f_view]))
    by (vm_compute; apply NoDup_singleton).
  split; [exact H|].
  exact (proj2 (proj2 (proj2 (proj2
           (nsel_token ascii_lower posix_basename id "abis/a.json" [f_view])))) H).
Defined.

(** * Further properties of the code

    ** The 64-bit token hash *)

Lemma int_from_bytes_big_range (bs : list Z) : forall acc n,
  Forall is_byte bs -> 0 <= n -> 0 <= acc < 2 ^ n ->
  0 <= fold_left (fun acc b => Z.lor (Z.shiftl acc 8) b) bs acc
    < 2 ^ (n + 8 * Z.of_nat (length bs)).
Proof.
  induction bs as [|b bs IH]; intros acc n Hb Hn Hacc; cbn [fold_left length].
  - by rewrite Z.add_0_r.
  - apply Forall_cons in Hb. destruct Hb as [Hb Hbs].
    replace (n + 8 * Z.of_nat (S (length bs)))
      with ((n + 8) + 8 * Z.of_nat (length bs)) by lia.
    apply IH; [done|lia|]. unfold is_byte in Hb.
    assert (Hlow : Z.land (Z.shiftl acc 8) b = 0).
    { apply Z.bits_inj'. intros m Hm. rewrite Z.land_spec, Z.bits_0.
      destruct (decide (m < 8)) as [Hlt|Hge].
      - by rewrite Z.shiftl_spec_low.
      - destruct (decide (b = 0)) as [->|Hnz]; [by rewrite Z.bits_0, andb_false_r|].
        rewrite (Z.bits_above_log2 b m); [apply andb_false_r|lia|].
        assert (Z.log2 b < 8) by (apply Z.log2_lt_pow2; lia). lia. }
    rewrite <- Z.add_nocarry_lor by exact Hlow.
    rewrite Z.shiftl_mul_pow2 by lia. rewrite Z.pow_add_r by lia. nia.
Qed.

Lemma chunk_range (bs : list Z) :
  Forall is_byte bs -> (length bs <= 8)%nat -> 0 <= int_from_bytes_big bs < 2 ^ 64.
Proof.
  intros Hb Hlen. unfold int_from_bytes_big.
  pose proof (int_from_bytes_big_range bs 0 0 Hb ltac:(lia) ltac:(lia)) as H.
  split; [lia|]. eapply Z.lt_le_trans; [apply H|].
  apply Z.pow_le_mono_r; lia.
Qed.

Lemma xor_fold_range (h : list Z) :
  Forall is_byte h -> length h = 32%nat -> 0 <= xor_fold h < 2 ^ 64.
Proof.
  intros Hb Hlen. unfold xor_fold.
  repeat apply lxor_range; try lia; apply chunk_range;
    rewrite ?length_take, ?length_drop; try lia;
    repeat (apply Forall_take || apply Forall_drop); done.
Qed.

Lemma hash64_unfold (s : string) :
  _hash64 s = Z.land (xor_fold (keccak s)) (Z.ones 64).
Proof. unfold _hash64, xor_fold. reflexivity. Qed.

Lemma hash64_range (s : string) : 0 <= _hash64 s < 2 ^ 64.
Proof.
  rewrite hash64_unfold, Z.land_ones by lia. apply Z.mod_pos_bound. lia.
Qed.

(** X1: the token hash is the XOR of the four 8-byte big-endian chunks
    of the digest and is a 64-bit unsigned integer; the final mask of
    the source never changes the value. *)
Theorem hash64_xor_fold (s : string) :
  _hash64 s = xor_fold (keccak s) /\ 0 <= _hash64 s < 2 ^ 64.
Proof.
  pose proof (xor_fold_range _ (keccak_bytes s) (keccak_length s)) as Hx.
  rewrite hash64_unfold, Z.land_ones by lia.
  rewrite Z.mod_small by exact Hx. by split.
Qed.

Lemma sum_of_nil {A : Type} (g : A -> Z) : sum_of g [] = 0.
Proof. reflexivity. Qed.

Lemma sum_of_cons {A : Type} (g : A -> Z) (x : A) (l : list A) :
  sum_of g (x :: l) = g x + sum_of g l.
Proof. reflexivity. Qed.

Lemma sum_of_scale {A : Type} (g g' : A -> Z) (k : Z) (l : list A) :
  (forall x, g' x = k * g x) -> sum_of g' l = k * sum_of g l.
Proof.
  intros Hg. induction l as [|x l IH]; [rewrite !sum_of_nil; lia|].
  rewrite !sum_of_cons, IH, Hg. lia.
Qed.

Lemma vote_sum_nil (i : nat) : vote_sum [] i = 0.
Proof. reflexivity. Qed.

Lemma vote_sum_cons (t : string * Z) (tokens : list (string * Z)) (i : nat) :
  vote_sum (t :: tokens) i = delta (_hash64 t.1) t.2 i + vote_sum tokens i.
Proof. exact (sum_of_cons (fun t0 => delta (_hash64 t0.1) t0.2 i) t tokens). Qed.

Lemma fold_left_step {A B : Type} (f : B -> A -> B) (x : A) (l : list A) (b : B) :
  fold_left f (x :: l) b = fold_left f l (f b x).
Proof. reflexivity. Qed.

Lemma accumulators_lookup (tokens : list (string * Z)) :
  forall (vec : list Z) (j : nat), (j < 64)%nat ->
  fold_left accumulate tokens vec !! j
  = (fun v => v + vote_sum tokens j) <$> vec !! j.
Proof.
  induction tokens as [|t tokens IH]; intros vec j Hj;
    [change (fold_left accumulate [] vec) with vec|rewrite fold_left_step].
  - rewrite vote_sum_nil.
    destruct (vec !! j) as [v|]; cbn [fmap option_fmap option_map]; [|done].
    f_equal. lia.
  - rewrite vote_sum_cons.
    rewrite IH, accumulate_lookup, decide_True by done.
    generalize (delta (_hash64 t.1) t.2 j) (vote_sum tokens j). intros d s.
    destruct (vec !! j) as [v|]; cbn [fmap option_fmap option_map]; [|done].
    f_equal. lia.
Qed.

Lemma accumulators_total (tokens : list (string * Z)) (j : nat) :
  (j < 64)%nat ->
  fold_left accumulate tokens (replicate 64 0) !!! j = vote_sum tokens j.
Proof.
  intros Hj. apply list_lookup_total_correct.
  rewrite accumulators_lookup, lookup_replicate_2 by done. done.
Qed.

Lemma collect_testbit (vec : list Z) (n : nat) (j : nat) :
  Z.testbit (fold_left (collect vec) (seq 0 n) 0) (Z.of_nat j)
  = bool_decide (j < n)%nat && (0 <=? vec !!! j).
Proof.
  induction n as [|n IH].
  - cbn [seq fold_left]. rewrite Z.bits_0. by rewrite bool_decide_eq_false_2 by lia.
  - rewrite seq_S, fold_left_app. cbn [fold_left plus].
    set (out := fold_left _ _ 0) in *. unfold collect at 1.
    destruct (decide (j = n)) as [->|Hne].
    + rewrite (bool_decide_eq_true_2 (n < S n)%nat) by lia.
      rewrite (bool_decide_eq_false_2 (n < n)%nat) in IH by lia.
      destruct (0 <=? vec !!! n).
      * rewrite Z.lor_spec, Z.shiftl_1_l, Z.pow2_bits_true by lia. apply orb_true_r.
      * exact IH.
    + assert (Hb : bool_decide (j < S n)%nat = bool_decide (j < n)%nat)
        by (apply bool_decide_ext; lia).
      rewrite Hb, <- IH.
      destruct (0 <=? vec !!! n); [|done].
      rewrite Z.lor_spec, Z.shiftl_1_l, Z.pow2_bits_false by lia. apply orb_false_r.
Qed.

(** X2: the fingerprint is a 64-bit unsigned integer whose bit [i] is
    set exactly when the weighted votes of the tokens at position [i]
    sum to a value that is not negative. *)
Theorem simhash64_majority (tokens : list (string * Z)) :
  0 <= simhash64 tokens < 2 ^ 64
  /\ forall i : nat, (i < 64)%nat ->
       Z.testbit (simhash64 tokens) (Z.of_nat i) = (0 <=? vote_sum tokens i).
Proof.
  split; [apply simhash64_range|].
  intros i Hi. unfold simhash64.
  rewrite collect_testbit, bool_decide_eq_true_2 by done.
  by rewrite accumulators_total.
Qed.

Lemma bits_above_64 (x : Z) (n : Z) :
  0 <= x < 2 ^ 64 -> 64 <= n -> Z.testbit x n = false.
Proof.
  intros Hx Hn. destruct (decide (x = 0)) as [->|Hnz]; [apply Z.bits_0|].
  apply Z.bits_above_log2; [lia|].
  assert (Z.log2 x < 64) by (apply Z.log2_lt_pow2; lia). lia.
Qed.

Lemma word64_eq (x y : Z) :
  0 <= x < 2 ^ 64 -> 0 <= y < 2 ^ 64 ->
  (forall i : nat, (i < 64)%nat -> Z.testbit x (Z.of_nat i) = Z.testbit y (Z.of_nat i)) ->
  x = y.
Proof.
  intros Hx Hy Hbits. apply Z.bits_inj'. intros n Hn.
  destruct (decide (n < 64)) as [Hlt|Hge].
  - specialize (Hbits (Z.to_nat n) ltac:(lia)). by rewrite Z2Nat.id in Hbits by lia.
  - by rewrite !bits_above_64 by lia.
Qed.

Lemma simhash64_signs (tokens tokens' : list (string * Z)) :
  (forall i : nat, (i < 64)%nat ->
     (0 <=? vote_sum tokens i) = (0 <=? vote_sum tokens' i)) ->
  simhash64 tokens = simhash64 tokens'.
Proof.
  intros Hs. apply word64_eq; try apply simhash64_range.
  intros i Hi. unfold simhash64.
  rewrite !collect_testbit, !bool_decide_eq_true_2, !accumulators_total by done.
  by apply Hs.
Qed.

Lemma vote_sum_scale (k : Z) (tokens : list (string * Z)) (i : nat) :
  vote_sum (scale_weights k tokens) i = k * vote_sum tokens i.
Proof.
  induction tokens as [|t tokens IH]; [rewrite !vote_sum_nil; lia|].
  unfold scale_weights in *. rewrite map_cons, !vote_sum_cons, IH.
  cbn [fst snd]. unfold delta. destruct (Z.testbit _ _); lia.
Qed.

(** X3: multiplying every weight by the same positive integer does not
    change the fingerprint. *)
Theorem simhash64_scale (k : Z) (tokens : list (string * Z)) :
  0 < k -> simhash64 (scale_weights k tokens) = simhash64 tokens.
Proof.
  intros Hk. apply simhash64_signs. intros i Hi.
  rewrite vote_sum_scale.
  destruct (Z.leb_spec 0 (vote_sum tokens i)), (Z.leb_spec 0 (k * vote_sum tokens i));
    try done; nia.
Qed.

Lemma simhash64_scale_witness :
  0 < 2 /\ simhash64 (scale_weights 2 [("transfer"%string, 3); ("mut:view"%string, 2)])
           = simhash64 [("transfer"%string, 3); ("mut:view"%string, 2)].
Proof. split; [lia|]. apply simhash64_scale. lia. Defined.

(** X4: one token alone gives its own hash when its weight is
    positive, the complement of its hash when the weight is negative,
    and all ones when the weight is zero. *)
Theorem simhash64_single (tok : string) (wt : Z) :
  (0 < wt -> simhash64 [(tok, wt)] = _hash64 tok)
  /\ (wt < 0 -> simhash64 [(tok, wt)] = Z.lxor (_hash64 tok) (2 ^ 64 - 1))
  /\ (wt = 0 -> simhash64 [(tok, wt)] = 2 ^ 64 - 1).
Proof.
  pose proof (hash64_range tok) as Hh.
  assert (Hv : forall i, vote_sum [(tok, wt)] i = delta (_hash64 tok) wt i).
  { intros i. rewrite vote_sum_cons, vote_sum_nil. cbn [fst snd]. lia. }
  assert (Hm : 0 <= 2 ^ 64 - 1 < 2 ^ 64) by lia.
  assert (Hones : forall i : nat, (i < 64)%nat ->
            Z.testbit (2 ^ 64 - 1) (Z.of_nat i) = true).
  { intros i Hi. change (2 ^ 64 - 1) with (Z.ones 64). apply Z.ones_spec_low. lia. }
  repeat split; intros Hw; apply word64_eq;
    try apply simhash64_range; try done; try (apply lxor_range; lia);
    intros i Hi; unfold simhash64;
    rewrite collect_testbit, bool_decide_eq_true_2, accumulators_total, Hv by done;
    rewrite ?Z.lxor_spec, ?Hones by done; unfold delta;
    destruct (Z.testbit (_hash64 tok) (Z.of_nat i)); cbn [xorb];
    destruct (Z.leb_spec 0 wt), (Z.leb_spec 0 (- wt)); try done; lia.
Qed.

Lemma simhash64_single_witness :
  0 < 3 /\ simhash64 [("transfer"%string, 3)] = _hash64 "transfer".
Proof. split; [lia|]. apply (proj1 (simhash64_single "transfer" 3)). lia. Defined.

Lemma bit_count_zero (z : Z) : bit_count z = 0 <-> z = 0.
Proof.
  assert (Hp : forall p, (0 < popcount p)%nat)
    by (induction p; cbn [popcount]; lia).
  destruct z as [|p|p]; cbn [bit_count]; split; try done; intros H;
    specialize (Hp p); lia.
Qed.

Lemma hamming_distance_triangle (a b c : Z) :
  (hamming_distance a c <= hamming_distance a b + hamming_distance b c)%nat.
Proof.
  unfold hamming_distance.
  induction (seq 0 64) as [|i l IH]; [done|].
  rewrite !filter_cons.
  destruct (Z.testbit a (Z.of_nat i)), (Z.testbit b (Z.of_nat i)),
    (Z.testbit c (Z.of_nat i));
    repeat case_decide; try done; cbn [length]; lia.
Qed.

(** X5: [hamming] is symmetric and vanishes exactly on equal integers;
    on 64-bit words it is at most 64 and satisfies the triangle
    inequality. *)
Theorem hamming_metric (a b c : Z) :
  hamming a b = hamming b a
  /\ (hamming a b = 0 <-> a = b)
  /\ (0 <= a < 2 ^ 64 -> 0 <= b < 2 ^ 64 -> 0 <= c < 2 ^ 64 ->
      0 <= hamming a b <= 64
      /\ hamming a c <= hamming a b + hamming b c).
Proof.
  split; [|split].
  - unfold hamming. by rewrite Z.lxor_comm.
  - unfold hamming. rewrite bit_count_zero. split.
    + apply Z.lxor_eq.
    + intros ->. apply Z.lxor_nilpotent.
  - intros Ha Hb Hc.
    rewrite !hamming_hamming_distance by done.
    pose proof (hamming_distance_le a b).
    pose proof (hamming_distance_triangle a b c). lia.
Qed.

Lemma hamming_metric_witness :
  (0 <= 5 < 2 ^ 64 /\ 0 <= 3 < 2 ^ 64 /\ 0 <= 9 < 2 ^ 64)
  /\ hamming 5 9 <= hamming 5 3 + hamming 3 9.
Proof.
  split; [lia|].
  apply (proj2 (proj2 (hamming_metric 5 3 9))); lia.
Defined.

Lemma similarity_of_distance_order (j k : nat) :
  (j <= 64)%nat -> (k <= 64)%nat ->
  fltb (similarity_of_distance k) (similarity_of_distance j) = bool_decide (j < k)%nat
  /\ feqb (similarity_of_distance j) (similarity_of_distance k) = bool_decide (j = k).
Proof.
  intros Hj Hk.
  assert (Hall : forallb (fun j => forallb (fun k =>
            bool_decide (fltb (similarity_of_distance k) (similarity_of_distance j)
                         = bool_decide (j < k)%nat)
            && bool_decide (feqb (similarity_of_distance j) (similarity_of_distance k)
                            = bool_decide (j = k)))
            (seq 0 65)) (seq 0 65) = true) by (vm_compute; reflexivity).
  rewrite forallb_forall in Hall.
  specialize (Hall j ltac:(apply in_seq; lia)).
  rewrite forallb_forall in Hall.
  specialize (Hall k ltac:(apply in_seq; lia)).
  apply andb_prop in Hall. destruct Hall as [H1 H2].
  apply bool_decide_eq_true in H1. apply bool_decide_eq_true in H2. by split.
Qed.

(** X6: the fingerprint similarity is symmetric; on 64-bit words it is
    1.0 exactly for equal fingerprints, and comparing two similarities
    is comparing the two Hamming distances the other way round. *)
Theorem similarity_order (a b c d : Z) :
  simhash_similarity a b = simhash_similarity b a
  /\ (0 <= a < 2 ^ 64 -> 0 <= b < 2 ^ 64 -> 0 <= c < 2 ^ 64 -> 0 <= d < 2 ^ 64 ->
      (simhash_similarity a b = f1_0 <-> a = b)
      /\ (fltb (simhash_similarity c d) (simhash_similarity a b) = true
          <-> hamming a b < hamming c d)
      /\ (feqb (simhash_similarity a b) (simhash_similarity c d) = true
          <-> hamming a b = hamming c d)).
Proof.
  split.
  - unfold simhash_similarity, hamming. by rewrite Z.lxor_comm.
  - intros Ha Hb Hc Hd.
    rewrite (simhash_similarity_distance a b), (simhash_similarity_distance c d) by done.
    rewrite !hamming_hamming_distance by done.
    pose proof (hamming_distance_le a b) as Hab.
    pose proof (hamming_distance_le c d) as Hcd.
    destruct (similarity_of_distance_order _ _ Hab Hcd) as [Hlt Heq].
    destruct (similarity_of_distance_order _ 0 Hab ltac:(lia)) as [_ Heq0].
    split; [|split].
    + assert (H0 : hamming_distance a b = 0%nat <-> a = b).
      { rewrite <- (Nat2Z.inj_iff _ 0), <- hamming_hamming_distance by done.
        change (Z.of_nat 0) with 0. unfold hamming. rewrite bit_count_zero. split.
        - apply Z.lxor_eq.
        - intros ->. apply Z.lxor_nilpotent. }
      rewrite <- H0. split.
      * intros He. change f1_0 with (similarity_of_distance 0) in He.
        rewrite He in Heq0. change (feqb (similarity_of_distance 0) (similarity_of_distance 0)) with true in Heq0.
        symmetry in Heq0. by apply bool_decide_eq_true in Heq0.
      * by intros ->.
    + rewrite Hlt, bool_decide_eq_true. lia.
    + rewrite Heq, bool_decide_eq_true. lia.
Qed.

Lemma similarity_order_witness :
  (0 <= 5 < 2 ^ 64 /\ 0 <= 3 < 2 ^ 64 /\ 0 <= 9 < 2 ^ 64 /\ 0 <= 0 < 2 ^ 64)
  /\ (simhash_similarity 5 3 = f1_0 <-> 5 = 3).
Proof.
  split; [lia|].
  apply (proj2 (similarity_order 5 3 9 0)); lia.
Defined.

(** ** Selector Jaccard: symmetry and extremes *)

Lemma list_to_set_ext (a a' : list string) :
  (forall x, x ∈ a <-> x ∈ a') -> (list_to_set a : gset string) = list_to_set a'.
Proof.
  intros H. apply set_eq. intros x. by rewrite !elem_of_list_to_set.
Qed.

Lemma jaccard_comm (a b : list string) : jaccard a b = jaccard b a.
Proof.
  unfold jaccard.
  rewrite (andb_comm (bool_decide (list_to_set a = ∅))).
  rewrite (orb_comm (bool_decide (list_to_set a = ∅))).
  by rewrite (intersection_comm_L (list_to_set a)), (union_comm_L (list_to_set a)).
Qed.

Lemma jaccard_same_sets (a b : list string) :
  (forall x, x ∈ a <-> x ∈ b) -> jaccard a b = f1_0.
Proof.
  intros H. unfold jaccard. rewrite (list_to_set_ext a b H).
  exact (jaccard_self b).
Qed.

(** X7: the selector Jaccard is symmetric and depends on its arguments
    only through their sets of elements: order and repetition do not
    matter. *)
Theorem jaccard_set_based (a b a' b' : list string) :
  jaccard a b = jaccard b a
  /\ ((forall x, x ∈ a <-> x ∈ a') -> (forall x, x ∈ b <-> x ∈ b') ->
      jaccard a b = jaccard a' b').
Proof.
  split; [apply jaccard_comm|].
  intros Ha Hb. unfold jaccard.
  by rewrite (list_to_set_ext a a' Ha), (list_to_set_ext b b' Hb).
Qed.

Lemma jaccard_set_based_witness :
  ((forall x : string, x ∈ ["a"; "b"; "a"] <-> x ∈ ["b"; "a"])
   /\ (forall x : string, x ∈ ["c"] <-> x ∈ ["c"; "c"]))
  /\ jaccard ["a"; "b"; "a"] ["c"] = jaccard ["b"; "a"] ["c"; "c"].
Proof.
  assert (H1 : forall x : string, x ∈ ["a"; "b"; "a"] <-> x ∈ ["b"; "a"])
    by set_solver.
  assert (H2 : forall x : string, x ∈ ["c"] <-> x ∈ ["c"; "c"]) by set_solver.
  split; [by split|].
  exact (proj2 (jaccard_set_based ["a"; "b"; "a"] ["c"] ["b"; "a"] ["c"; "c"]) H1 H2).
Defined.

(** X8: the selector Jaccard is 1.0 for two lists with the same
    elements, and 0.0 for two non-empty lists without a common
    element. *)
Theorem jaccard_extremes (a b : list string) :
  ((forall x, x ∈ a <-> x ∈ b) -> jaccard a b = f1_0)
  /\ (a <> [] -> b <> [] -> (forall x, x ∈ a -> x ∉ b) -> jaccard a b = f0_0).
Proof.
  split; [apply jaccard_same_sets|].
  intros Ha Hb Hdisj. unfold jaccard.
  assert (Hsa : (list_to_set a : gset string) <> ∅).
  { destruct a as [|x a]; [done|]. set_solver. }
  assert (Hsb : (list_to_set b : gset string) <> ∅).
  { destruct b as [|x b]; [done|]. set_solver. }
  rewrite !bool_decide_eq_false_2 by done. cbn [andb orb].
  assert (He : (list_to_set a : gset string) ∩ list_to_set b = ∅).
  { apply set_eq. intros x.
    rewrite elem_of_intersection, !elem_of_list_to_set. set_solver. }
  rewrite He, size_empty.
  pose proof (jaccard_divisor_positive a b Hsa) as Hpos.
  unfold int_truediv. cbn [Z.of_nat exact_of_int].
  destruct (Z.of_nat (size _)) as [|p|p] eqn:E; [lia|reflexivity|lia].
Qed.

Lemma jaccard_extremes_witness :
  (["a"] <> @nil string /\ ["b"] <> @nil string
   /\ (forall x : string, x ∈ ["a"] -> x ∉ ["b"]))
  /\ jaccard ["a"] ["b"] = f0_0.
Proof.
  assert (H : forall x : string, x ∈ ["a"] -> x ∉ ["b"]) by set_solver.
  split; [by repeat split|].
  exact (proj2 (jaccard_extremes ["a"] ["b"]) ltac:(done) ltac:(done) H).
Defined.

(** ** The signature builder *)

Lemma normalize_type_idempotent (t : string) :
  normalize_type (normalize_type t) = normalize_type t.
Proof.
  unfold normalize_type.
  destruct (String.eqb_spec t "uint"); [reflexivity|].
  destruct (String.eqb_spec t "int"); [reflexivity|].
  destruct (String.eqb_spec t "uint"); [done|].
  by destruct (String.eqb_spec t "int").
Qed.

Lemma input_types_canonical (ins : list abi_input) :
  input_types (map canonical_input ins) = input_types ins.
Proof.
  unfold input_types. rewrite map_map. apply map_ext. intros i.
  unfold canonical_input. cbn [in_type]. apply normalize_type_idempotent.
Qed.

Lemma fn_signature_canonical (nm : string) (ins : list abi_input) :
  fn_signature nm (map canonical_input ins) = fn_signature nm ins.
Proof. unfold fn_signature. by rewrite input_types_canonical. Qed.

Lemma evsig_signature_canonical (nm : string) (ins : list abi_input) :
  evsig_signature nm (map canonical_input ins) = evsig_signature nm ins.
Proof. unfold evsig_signature. by rewrite input_types_canonical. Qed.

(** X9: normalising a type twice is normalising it once, so writing the
    inputs of a member with their aliases resolved (uint as uint256,
    int as int256, a missing type as the empty string) changes neither
    its signature nor its selector; events and functions are given the
    same signature text. *)
Theorem signature_normalization (nm : string) (ins : list abi_input) :
  (forall t, normalize_type (normalize_type t) = normalize_type t)
  /\ fn_signature nm (map canonical_input ins) = fn_signature nm ins
  /\ fourbyte (fn_signature nm (map canonical_input ins))
     = fourbyte (fn_signature nm ins)
  /\ evsig_signature nm ins = fn_signature nm ins
  /\ fn_signature nm ({| in_type := Some "uint" |} :: ins)
     = fn_signature nm ({| in_type := Some "uint256" |} :: ins)
  /\ fn_signature nm ({| in_type := Some "int" |} :: ins)
     = fn_signature nm ({| in_type := Some "int256" |} :: ins)
  /\ fn_signature nm ({| in_type := None |} :: ins)
     = fn_signature nm ({| in_type := Some "" |} :: ins).
Proof.
  split; [apply normalize_type_idempotent|].
  split; [apply fn_signature_canonical|].
  split; [by rewrite fn_signature_canonical|].
  by repeat split.
Qed.

(** ** The extracted view *)

Lemma classify_components (acc : list string * list string * list string)
      (it : abi_item) :
  classify acc it
  = (acc.1.1 ++ item_functions it, acc.1.2 ++ item_events it,
     acc.2 ++ item_selectors it).
Proof.
  destruct acc as [[fns evs] sels].
  unfold classify, item_functions, item_events, item_selectors, is_function_item.
  cbn [fst snd].
  destruct (String.eqb _ "function"); [by rewrite app_nil_r|].
  destruct (String.eqb _ "event"); [by rewrite !app_nil_r|].
  destruct (is_special _); by rewrite !app_nil_r.
Qed.

Lemma scan_components (abi : list abi_item) :
  forall acc,
    fold_left classify abi acc
    = (acc.1.1 ++ flat_map item_functions abi, acc.1.2 ++ flat_map item_events abi,
       acc.2 ++ flat_map item_selectors abi).
Proof.
  induction abi as [|it abi IH]; intros [[fns evs] sels].
  - cbn [flat_map fst snd]. rewrite !app_nil_r. reflexivity.
  - rewrite fold_left_step, IH, classify_components.
    cbn [flat_map fst snd]. by rewrite <- !app_assoc.
Qed.

Lemma scan_flat_map (abi : list abi_item) :
  scan abi
  = (flat_map item_functions abi, flat_map item_events abi,
     flat_map item_selectors abi).
Proof. unfold scan. by rewrite scan_components. Qed.

Lemma extract_fields (lower basename splitext_root : string -> string)
      (path : string) (abi : list abi_item) :
  extract_contract_view lower basename splitext_root path abi
  = {| cv_file := basename path;
       cv_name_hint := splitext_root (basename path);
       cv_functions := flat_map item_functions abi;
       cv_events := flat_map item_events abi;
       cv_selectors := sorted_set (list_to_set (flat_map item_selectors abi));
       cv_simhash64 := simhash64 (contract_tokens lower abi) |}.
Proof.
  unfold extract_contract_view.
  pose proof (scan_flat_map abi) as Hs. unfold scan in Hs.
  by rewrite Hs.
Qed.

Lemma simhash64_perm (tokens tokens' : list (string * Z)) :
  Permutation tokens tokens' -> simhash64 tokens = simhash64 tokens'.
Proof.
  intros Hp. unfold simhash64. by rewrite (accumulate_permutation _ _ Hp).
Qed.

Lemma contract_tokens_permutation (lower : string -> string)
      (abi abi' : list abi_item) :
  Permutation abi abi' ->
  Permutation (contract_tokens lower abi) (contract_tokens lower abi').
Proof.
  intros Hp. rewrite !contract_tokens_structure.
  unfold raw_functions, raw_events, raw_selectors. rewrite !scan_flat_map.
  cbn [fst snd].
  rewrite (Permutation_length (Permutation_flat_map item_functions Hp)).
  rewrite (Permutation_length (Permutation_flat_map item_events Hp)).
  rewrite (Permutation_length (Permutation_flat_map item_selectors Hp)).
  apply Permutation_app; [by apply Permutation_flat_map|].
  apply Permutation_app; [by apply Permutation_flat_map|reflexivity].
Qed.

Section ViewInvariance.
Variables lower basename splitext_root : string -> string.

(** X10: the order of the members of an ABI does not affect the
    fingerprint or the selector list of its view; the function and
    event lists are reordered with the members. *)
Theorem view_permutation (path : string) (abi abi' : list abi_item) :
  Permutation abi abi' ->
  let v := extract_contract_view lower basename splitext_root path abi in
  let v' := extract_contract_view lower basename splitext_root path abi' in
  cv_simhash64 v = cv_simhash64 v'
  /\ cv_selectors v = cv_selectors v'
  /\ Permutation (cv_functions v) (cv_functions v')
  /\ Permutation (cv_events v) (cv_events v').
Proof.
  intros Hp v v'. unfold v, v'. rewrite !extract_fields.
  cbn [cv_simhash64 cv_selectors cv_functions cv_events].
  split; [|split; [|split]].
  - apply simhash64_perm. by apply contract_tokens_permutation.
  - f_equal. apply list_to_set_ext. intros x.
    by rewrite (Permutation_flat_map item_selectors Hp).
  - by apply Permutation_flat_map.
  - by apply Permutation_flat_map.
Qed.
End ViewInvariance.

Lemma view_permutation_witness :
  Permutation [f_view; payable_constructor] [payable_constructor; f_view]
  /\ cv_simhash64 (extract_contract_view ascii_lower posix_basename id
                     "abis/a.json" [f_view; payable_constructor])
     = cv_simhash64 (extract_contract_view ascii_lower posix_basename id
                       "abis/a.json" [payable_constructor; f_view]).
Proof.
  assert (H : Permutation [f_view; payable_constructor] [payable_constructor; f_view])
    by apply perm_swap.
  split; [exact H|].
  exact (proj1 (view_permutation ascii_lower posix_basename id "abis/a.json" _ _ H)).
Defined.

Section ViewNormalisation.
Variables lower basename splitext_root : string -> string.

Lemma item_functions_canonical (it : abi_item) :
  item_functions (canonical_item it) = item_functions it.
Proof.
  unfold item_functions, canonical_item.
  cbn [it_type it_name it_inputs it_stateMutability].
  destruct (it_inputs it) as [ins|]; cbn [fmap option_fmap option_map default from_option id];
    [|reflexivity].
  by rewrite fn_signature_canonical.
Qed.

Lemma item_events_canonical (it : abi_item) :
  item_events (canonical_item it) = item_events it.
Proof.
  unfold item_events, canonical_item.
  cbn [it_type it_name it_inputs it_stateMutability].
  destruct (it_inputs it) as [ins|]; cbn [fmap option_fmap option_map default from_option id];
    [|reflexivity].
  by rewrite evsig_signature_canonical.
Qed.

Lemma item_selectors_canonical (it : abi_item) :
  item_selectors (canonical_item it) = item_selectors it.
Proof.
  unfold item_selectors, is_function_item, canonical_item.
  cbn [it_type it_name it_inputs it_stateMutability].
  destruct (it_inputs it) as [ins|]; cbn [fmap option_fmap option_map default from_option id];
    [|reflexivity].
  by rewrite fn_signature_canonical.
Qed.

Lemma classify_canonical (acc : list string * list string * list string)
      (it : abi_item) :
  classify acc (canonical_item it) = classify acc it.
Proof.
  rewrite !classify_components.
  by rewrite item_functions_canonical, item_events_canonical, item_selectors_canonical.
Qed.

Lemma type_tokens_canonical (ins : list abi_input) :
  map type_token (map canonical_input ins) = map type_token ins.
Proof.
  rewrite map_map. apply map_ext. intros i. unfold type_token, canonical_input.
  cbn [in_type default from_option id]. by rewrite normalize_type_idempotent.
Qed.

Lemma item_function_tokens_canonical (it : abi_item) :
  item_function_tokens lower (canonical_item it) = item_function_tokens lower it.
Proof.
  unfold item_function_tokens, is_function_item, canonical_item.
  cbn [it_type it_name it_inputs it_stateMutability].
  destruct (it_inputs it) as [ins|]; cbn [fmap option_fmap option_map default from_option id];
    [|reflexivity].
  by rewrite fn_signature_canonical, type_tokens_canonical.
Qed.

Lemma item_event_tokens_canonical (it : abi_item) :
  item_event_tokens lower (canonical_item it) = item_event_tokens lower it.
Proof.
  unfold item_event_tokens, canonical_item.
  cbn [it_type it_name it_inputs it_stateMutability].
  destruct (it_inputs it) as [ins|]; cbn [fmap option_fmap option_map default from_option id];
    [|reflexivity].
  by rewrite evsig_signature_canonical.
Qed.

Lemma flat_map_map_ext {A B : Type} (g : A -> list B) (h : A -> A) (l : list A) :
  (forall x, g (h x) = g x) -> flat_map g (map h l) = flat_map g l.
Proof.
  intros Hg. induction l as [|x l IH]; [reflexivity|].
  cbn [map flat_map]. by rewrite Hg, IH.
Qed.

Lemma scan_canonical (abi : list abi_item) :
  scan (map canonical_item abi) = scan abi.
Proof.
  unfold scan. apply fold_left_map_ext. apply classify_canonical.
Qed.

Lemma contract_tokens_canonical (abi : list abi_item) :
  contract_tokens lower (map canonical_item abi) = contract_tokens lower abi.
Proof.
  rewrite !contract_tokens_structure.
  unfold raw_functions, raw_events, raw_selectors. rewrite scan_canonical.
  rewrite (flat_map_map_ext _ _ _ item_function_tokens_canonical).
  by rewrite (flat_map_map_ext _ _ _ item_event_tokens_canonical).
Qed.

Lemma extract_canonical (path : string) (abi : list abi_item) :
  extract_contract_view lower basename splitext_root path (map canonical_item abi)
  = extract_contract_view lower basename splitext_root path abi.
Proof.
  rewrite !extract_fields, contract_tokens_canonical.
  pose proof (scan_canonical abi) as Hs. rewrite !scan_flat_map in Hs.
  injection Hs as H1 H2 H3. by rewrite H1, H2, H3.
Qed.

(** X11: resolving the type aliases of every input of every member
    (uint, int, a missing type) leaves the whole view unchanged:
    functions, events, selectors and fingerprint. *)
Theorem view_alias_invariance (path : string) (abi : list abi_item) :
  extract_contract_view lower basename splitext_root path (map canonical_item abi)
  = extract_contract_view lower basename splitext_root path abi
  /\ contract_tokens lower (map canonical_item abi) = contract_tokens lower abi.
Proof. split; [apply extract_canonical|apply contract_tokens_canonical]. Qed.

Lemma unknown_item_silent (it : abi_item) :
  is_known_item it = false ->
  item_functions it = [] /\ item_events it = [] /\ item_selectors it = []
  /\ item_function_tokens lower it = [] /\ item_event_tokens lower it = [].
Proof.
  unfold item_functions, item_events, item_selectors, item_function_tokens,
    item_event_tokens, is_known_item, is_function_item, is_event_item,
    is_special_item.
  destruct (it_type it) as [typ|] eqn:Ht.
  2: { intros Hk. discriminate Hk. }
  change (default "function" (Some typ)) with typ.
  destruct (String.eqb_spec typ "function") as [|Hf];
    [intros Hk; discriminate Hk|].
  destruct (String.eqb_spec typ "event") as [|He];
    [intros Hk; discriminate Hk|].
  cbn [orb]. intros ->.
  rewrite bool_decide_eq_false_2 by congruence. by repeat split.
Qed.

Lemma flat_map_filter_silent {A B : Type} (g : A -> list B) (P : A -> bool)
      (l : list A) :
  (forall x, P x = false -> g x = []) ->
  flat_map g (List.filter P l) = flat_map g l.
Proof.
  intros Hg. induction l as [|x l IH]; [reflexivity|].
  cbn [List.filter flat_map]. destruct (P x) eqn:E.
  - cbn [flat_map]. by rewrite IH.
  - by rewrite (Hg x E), IH.
Qed.

(** X12: members whose type is none of function, event, constructor,
    fallback, receive (an error, say) are ignored: removing them from
    the ABI changes neither the view nor the tokens. *)
Theorem unknown_members_ignored (path : string) (abi : list abi_item) :
  extract_contract_view lower basename splitext_root path
                        (List.filter is_known_item abi)
  = extract_contract_view lower basename splitext_root path abi
  /\ contract_tokens lower (List.filter is_known_item abi)
     = contract_tokens lower abi.
Proof.
  assert (Hf : flat_map item_functions (List.filter is_known_item abi)
               = flat_map item_functions abi)
    by (apply flat_map_filter_silent; intros x Hx; apply (unknown_item_silent x Hx)).
  assert (He : flat_map item_events (List.filter is_known_item abi)
               = flat_map item_events abi)
    by (apply flat_map_filter_silent; intros x Hx; apply (unknown_item_silent x Hx)).
  assert (Hs : flat_map item_selectors (List.filter is_known_item abi)
               = flat_map item_selectors abi)
    by (apply flat_map_filter_silent; intros x Hx; apply (unknown_item_silent x Hx)).
  assert (Hft : flat_map (item_function_tokens lower) (List.filter is_known_item abi)
               = flat_map (item_function_tokens lower) abi)
    by (apply flat_map_filter_silent; intros x Hx; apply (unknown_item_silent x Hx)).
  assert (Het : flat_map (item_event_tokens lower) (List.filter is_known_item abi)
               = flat_map (item_event_tokens lower) abi)
    by (apply flat_map_filter_silent; intros x Hx; apply (unknown_item_silent x Hx)).
  assert (Ht : contract_tokens lower (List.filter is_known_item abi)
               = contract_tokens lower abi).
  { rewrite !contract_tokens_structure.
    unfold raw_functions, raw_events, raw_selectors. rewrite !scan_flat_map.
    cbn [fst snd]. by rewrite Hf, He, Hs, Hft, Het. }
  split; [|exact Ht].
  by rewrite !extract_fields, Ht, Hf, He, Hs.
Qed.

(** X13: the function list of a view has one entry per function-kind
    member and per constructor, fallback or receive member; the event
    list one per event; and the selector list at most one per
    function-kind member. *)
Theorem view_counts (path : string) (abi : list abi_item) :
  let v := extract_contract_view lower basename splitext_root path abi in
  length (cv_functions v)
  = (length (List.filter is_function_item abi)
     + length (List.filter is_special_item abi))%nat
  /\ length (cv_events v) = length (List.filter is_event_item abi)
  /\ (length (cv_selectors v) <= length (List.filter is_function_item abi))%nat.
Proof.
  intros v. unfold v. rewrite extract_fields.
  cbn [cv_functions cv_events cv_selectors].
  split; [|split].
  - induction abi as [|it abi IH]; [reflexivity|].
    cbn [flat_map List.filter]. rewrite length_app, IH.
    unfold item_functions, is_function_item, is_special_item.
    destruct (String.eqb_spec (default "function" (it_type it)) "function") as [->|Hf];
      [cbn [length is_special String.eqb orb]; reflexivity|].
    destruct (String.eqb_spec (default "function" (it_type it)) "event") as [->|He];
      [reflexivity|].
    destruct (is_special _); cbn [length]; lia.
  - induction abi as [|it abi IH]; [reflexivity|].
    cbn [flat_map List.filter]. rewrite length_app, IH.
    unfold item_events, is_event_item.
    destruct (String.eqb_spec (default "function" (it_type it)) "function") as [->|Hf];
      [reflexivity|].
    by destruct (String.eqb _ "event").
  - unfold sorted_set. rewrite sorted_length.
    change (length (elements ?s)) with (size s).
    rewrite size_list_to_set_remove_dups, <- raw_selectors_length, raw_selectors_flat_map.
    apply remove_dups_length_le.
Qed.
End ViewNormalisation.

(** ** The sorted selector list *)

Lemma string_ltb_asym (x y : string) :
  String.ltb x y = true -> String.ltb y x = false.
Proof.
  unfold String.ltb. rewrite (String.compare_antisym x y).
  by destruct (String.compare y x).
Qed.

Lemma string_ltb_false_le (x y : string) :
  String.ltb y x = false <-> String.le x y.
Proof.
  unfold String.ltb, String.le, String.leb.
  rewrite (String.compare_antisym y x).
  destruct (String.compare x y); cbn [CompOpp]; split; (done || discriminate).
Qed.

Lemma string_ltb_negtrans (x y z : string) :
  String.ltb x y = false -> String.ltb y z = false -> String.ltb x z = false.
Proof.
  rewrite !string_ltb_false_le. intros Hyx Hzy.
  by transitivity y.
Qed.

Lemma string_le_ne_ltb (x y : string) :
  String.le x y -> x <> y -> String.ltb x y = true.
Proof.
  unfold String.le, String.leb, String.ltb. intros Hle Hne.
  destruct (String.compare x y) eqn:E; [|done|destruct Hle].
  by apply String.compare_eq_iff in E.
Qed.

Lemma StronglySorted_strict (l : list string) :
  NoDup l ->
  StronglySorted (fun a b => String.ltb b a = false) l ->
  StronglySorted (fun a b => String.ltb a b = true) l.
Proof.
  intros Hnd Hs. induction Hs as [|x l Hs IH Hx]; [constructor|].
  apply NoDup_cons in Hnd. destruct Hnd as [Hx' Hnd].
  constructor; [by apply IH|].
  rewrite Forall_forall in Hx |- *. intros y Hy.
  apply string_le_ne_ltb.
  - apply string_ltb_false_le. by apply Hx.
  - intros ->. by apply Hx'.
Qed.

Lemma sorted_set_spec (s : gset string) :
  StronglySorted (fun a b => String.ltb a b = true) (sorted_set s)
  /\ NoDup (sorted_set s)
  /\ (forall x, x ∈ sorted_set s <-> x ∈ s).
Proof.
  unfold sorted_set.
  pose proof (sorted_permutation String.ltb (elements s)) as Hp.
  assert (Hnd : NoDup (sorted String.ltb (elements s))).
  { rewrite Hp. apply NoDup_elements. }
  split; [|split; [exact Hnd|]].
  - apply StronglySorted_strict; [exact Hnd|].
    apply (sorted_sorted String.ltb (fun _ => True)).
    + intros x y _ _. apply string_ltb_asym.
    + intros x y z _ _ _. apply string_ltb_negtrans.
    + by apply Forall_true.
  - intros x. by rewrite Hp, elem_of_elements.
Qed.

Lemma fourbyte_length (sig : string) : String.length (fourbyte sig) = 10%nat.
Proof.
  unfold fourbyte.
  assert (Hb : Forall is_byte (firstn 4 (keccak sig)))
    by (apply Forall_take, keccak_bytes).
  destruct (hex_spec _ Hb) as (H1 & _ & _).
  rewrite length_take, keccak_length in H1.
  generalize dependent (hex (take 4 (keccak sig))). intros h Hh.
  change (String.length ("0x" +:+ h)) with (S (S (String.length h))).
  by rewrite string_length_list_ascii, Hh.
Qed.

Section SortedSelectors.
Variables lower basename splitext_root : string -> string.

(** X14: the selector list of a view is strictly increasing in the
    order of strings, hence free of duplicates; its elements are
    exactly the selectors of the function-kind members, each of ten
    characters. *)
Theorem selectors_sorted (path : string) (abi : list abi_item) :
  let v := extract_contract_view lower basename splitext_root path abi in
  StronglySorted (fun a b => String.ltb a b = true) (cv_selectors v)
  /\ NoDup (cv_selectors v)
  /\ (forall x, x ∈ cv_selectors v <->
        exists it, it ∈ abi /\ is_function_item it = true
                   /\ x = fourbyte (fn_signature (default "" (it_name it))
                                                 (default [] (it_inputs it))))
  /\ (forall x, x ∈ cv_selectors v -> String.length x = 10%nat).
Proof.
  intros v. unfold v. rewrite extract_fields. cbn [cv_selectors].
  destruct (sorted_set_spec (list_to_set (flat_map item_selectors abi)))
    as (Hs & Hnd & Hel).
  assert (Hchar : forall x,
            x ∈ sorted_set (list_to_set (flat_map item_selectors abi)) <->
            exists it, it ∈ abi /\ is_function_item it = true
              /\ x = fourbyte (fn_signature (default "" (it_name it))
                                            (default [] (it_inputs it)))).
  { intros x. rewrite Hel, elem_of_list_to_set, list_elem_of_In, in_flat_map.
    split.
    - intros (it & Hit & Hx). exists it. apply list_elem_of_In in Hit.
      unfold item_selectors in Hx. destruct (is_function_item it); [|done].
      destruct Hx as [<-|[]]. by repeat split.
    - intros (it & Hit & Hf & ->). exists it. apply list_elem_of_In in Hit.
      split; [done|]. unfold item_selectors. rewrite Hf. by left. }
  split; [exact Hs|split; [exact Hnd|split; [exact Hchar|]]].
  intros x Hx. apply Hchar in Hx. destruct Hx as (it & _ & _ & ->).
  apply fourbyte_length.
Qed.
End SortedSelectors.

(** ** Pair reports *)

Section Clones.
Variables lower basename splitext_root : string -> string.

Lemma extract_selectors_canonical_perm (path path' : string)
      (abi abi' : list abi_item) :
  Permutation (map canonical_item abi) (map canonical_item abi') ->
  cv_simhash64 (extract_contract_view lower basename splitext_root path abi)
  = cv_simhash64 (extract_contract_view lower basename splitext_root path' abi')
  /\ cv_selectors (extract_contract_view lower basename splitext_root path abi)
     = cv_selectors (extract_contract_view lower basename splitext_root path' abi').
Proof.
  intros Hp.
  rewrite <- (extract_canonical lower basename splitext_root path abi).
  rewrite <- (extract_canonical lower basename splitext_root path' abi').
  rewrite !extract_fields. cbn [cv_simhash64 cv_selectors]. split.
  - apply simhash64_perm. by apply contract_tokens_permutation.
  - f_equal. apply list_to_set_ext. intros x.
    by rewrite (Permutation_flat_map item_selectors Hp).
Qed.

(** X15: two ABIs that differ only in the order of their members and
    in the spelling of type aliases are reported as exact clones:
    fingerprint similarity, selector Jaccard and score are all 1.0. *)
Theorem reordered_alias_clone (path path' : string) (abi abi' : list abi_item) :
  Permutation (map canonical_item abi) (map canonical_item abi') ->
  let r := pair_report
             (extract_contract_view lower basename splitext_root path abi)
             (extract_contract_view lower basename splitext_root path' abi') in
  pr_simhash_sim r = f1_0 /\ pr_selector_jaccard r = f1_0 /\ pr_score r = f1_0.
Proof.
  intros Hp r. unfold r, pair_report.
  cbn [pr_simhash_sim pr_selector_jaccard pr_score].
  destruct (extract_selectors_canonical_perm path path' abi abi' Hp) as [Hf Hs].
  rewrite Hf, Hs, simhash_similarity_self, jaccard_self.
  do 2 (split; [reflexivity|]). apply score_self.
Qed.
End Clones.

Lemma reordered_alias_clone_witness :
  Permutation
    (map canonical_item
       [f_view; {| it_type := Some "function"; it_name := Some "g";
                   it_inputs := Some [{| in_type := Some "uint" |}];
                   it_stateMutability := None |}])
    (map canonical_item
       [{| it_type := Some "function"; it_name := Some "g";
           it_inputs := Some [{| in_type := Some "uint256" |}];
           it_stateMutability := None |}; f_view])
  /\ pr_score
       (pair_report
          (extract_contract_view ascii_lower posix_basename id "abis/a.json"
             [f_view; {| it_type := Some "function"; it_name := Some "g";
                         it_inputs := Some [{| in_type := Some "uint" |}];
                         it_stateMutability := None |}])
          (extract_contract_view ascii_lower posix_basename id "abis/b.json"
             [{| it_type := Some "function"; it_name := Some "g";
                 it_inputs := Some [{| in_type := Some "uint256" |}];
                 it_stateMutability := None |}; f_view]))
     = f1_0.
Proof.
  assert (H : Permutation
    (map canonical_item
       [f_view; {| it_type := Some "function"; it_name := Some "g";
                   it_inputs := Some [{| in_type := Some "uint" |}];
                   it_stateMutability := None |}])
    (map canonical_item
       [{| it_type := Some "function"; it_name := Some "g";
           it_inputs := Some [{| in_type := Some "uint256" |}];
           it_stateMutability := None |}; f_view]))
    by apply perm_swap.
  split; [exact H|].
  exact (proj2 (proj2 (reordered_alias_clone ascii_lower posix_basename id
                         "abis/a.json" "abis/b.json" _ _ H))).
Defined.

(** X16: comparing two views in the other order gives the same
    similarity, Jaccard, score and common selectors, with the two sides
    of the report exchanged. *)
Theorem pair_report_symmetric (a b : ContractView) :
  let r := pair_report a b in
  let r' := pair_report b a in
  pr_simhash_sim r' = pr_simhash_sim r
  /\ pr_selector_jaccard r' = pr_selector_jaccard r
  /\ pr_score r' = pr_score r
  /\ pr_common_selectors r' = pr_common_selectors r
  /\ pr_only_a r' = pr_only_b r /\ pr_only_b r' = pr_only_a r
  /\ pr_a r' = pr_b r /\ pr_b r' = pr_a r
  /\ pr_a_name r' = pr_b_name r /\ pr_b_name r' = pr_a_name r.
Proof.
  intros r r'. unfold r, r', pair_report.
  cbn [pr_simhash_sim pr_selector_jaccard pr_score pr_common_selectors
       pr_only_a pr_only_b pr_a pr_b pr_a_name pr_b_name].
  assert (Hs : simhash_similarity (cv_simhash64 b) (cv_simhash64 a)
               = simhash_similarity (cv_simhash64 a) (cv_simhash64 b))
    by (unfold simhash_similarity, hamming; by rewrite Z.lxor_comm).
  rewrite Hs, (jaccard_comm (cv_selectors b) (cv_selectors a)).
  rewrite (intersection_comm_L (list_to_set (cv_selectors b))).
  by repeat split.
Qed.

Lemma sorted_set_length (s : gset string) : length (sorted_set s) = size s.
Proof. unfold sorted_set. by rewrite sorted_length. Qed.

(** X17: the common selectors of a report are exactly the strings in
    both selector lists, strictly increasing; the counts of the
    selectors on one side only are never clipped by the guard max(0, .)
    and, for duplicate-free selector lists, add up with the common
    ones to the length of each list. *)
Theorem pair_report_accounting (a b : ContractView) :
  let r := pair_report a b in
  (forall x, x ∈ pr_common_selectors r <-> x ∈ cv_selectors a /\ x ∈ cv_selectors b)
  /\ StronglySorted (fun x y => String.ltb x y = true) (pr_common_selectors r)
  /\ pr_only_a r = Z.of_nat (length (cv_selectors a))
                   - Z.of_nat (length (pr_common_selectors r))
  /\ pr_only_b r = Z.of_nat (length (cv_selectors b))
                   - Z.of_nat (length (pr_common_selectors r))
  /\ (NoDup (cv_selectors a) -> NoDup (cv_selectors b) ->
      pr_only_a r
      = Z.of_nat (size ((list_to_set (cv_selectors a) : gset string)
                        ∖ list_to_set (cv_selectors b)))
      /\ Z.of_nat (length (pr_common_selectors r)) + pr_only_a r + pr_only_b r
         = Z.of_nat (size ((list_to_set (cv_selectors a) : gset string)
                           ∪ list_to_set (cv_selectors b)))).
Proof.
  intros r. unfold r, pair_report.
  cbn [pr_common_selectors pr_only_a pr_only_b].
  set (Sa := list_to_set (cv_selectors a) : gset string).
  set (Sb := list_to_set (cv_selectors b) : gset string).
  destruct (sorted_set_spec (Sa ∩ Sb)) as (Hs & _ & Hel).
  rewrite sorted_set_length.
  assert (Hla : (size Sa <= length (cv_selectors a))%nat).
  { unfold Sa. rewrite size_list_to_set_remove_dups. apply remove_dups_length_le. }
  assert (Hlb : (size Sb <= length (cv_selectors b))%nat).
  { unfold Sb. rewrite size_list_to_set_remove_dups. apply remove_dups_length_le. }
  assert (Hia : (size (Sa ∩ Sb) <= size Sa)%nat)
    by (apply subseteq_size; set_solver).
  assert (Hib : (size (Sa ∩ Sb) <= size Sb)%nat)
    by (apply subseteq_size; set_solver).
  split; [|split; [exact Hs|split; [lia|split; [lia|]]]].
  - intros x. rewrite Hel. unfold Sa, Sb.
    by rewrite elem_of_intersection, !elem_of_list_to_set.
  - intros Hna Hnb.
    assert (Hsa : size Sa = length (cv_selectors a))
      by (by apply size_list_to_set).
    assert (Hsb : size Sb = length (cv_selectors b))
      by (by apply size_list_to_set).
    assert (Hda : size Sa = (size (Sa ∖ Sb) + size (Sa ∩ Sb))%nat).
    { rewrite <- size_union by set_solver. f_equal.
      apply set_eq. intros x. rewrite elem_of_union, elem_of_difference,
        elem_of_intersection. destruct (decide (x ∈ Sb)); tauto. }
    assert (Hu : size (Sa ∪ Sb) = (size (Sa ∖ Sb) + size Sb)%nat).
    { rewrite <- size_union by set_solver. f_equal.
      apply set_eq. intros x. rewrite !elem_of_union, elem_of_difference.
      destruct (decide (x ∈ Sb)); tauto. }
    lia.
Qed.

Lemma pair_report_accounting_witness :
  (NoDup ["0x01"; "0x02"] /\ NoDup ["0x02"; "0x03"; "0x04"])
  /\ pr_only_a (pair_report
       {| cv_file := "a"; cv_name_hint := "a"; cv_functions := [];
          cv_events := []; cv_selectors := ["0x01"; "0x02"]; cv_simhash64 := 0 |}
       {| cv_file := "b"; cv_name_hint := "b"; cv_functions := [];
          cv_events := []; cv_selectors := ["0x02"; "0x03"; "0x04"];
          cv_simhash64 := 0 |})
     = Z.of_nat (size ((list_to_set ["0x01"; "0x02"] : gset string)
                       ∖ list_to_set ["0x02"; "0x03"; "0x04"])).
Proof.
  assert (H1 : NoDup ["0x01"; "0x02"]%string) by (repeat (apply NoDup_cons_2 || apply NoDup_nil_2); set_solver).
  assert (H2 : NoDup ["0x02"; "0x03"; "0x04"]%string) by (repeat (apply NoDup_cons_2 || apply NoDup_nil_2); set_solver).
  split; [by split|].
  exact (proj1 (proj2 (proj2 (proj2 (proj2
    (pair_report_accounting
       {| cv_file := "a"; cv_name_hint := "a"; cv_functions := [];
          cv_events := []; cv_selectors := ["0x01"; "0x02"]; cv_simhash64 := 0 |}
       {| cv_file := "b"; cv_name_hint := "b"; cv_functions := [];
          cv_events := []; cv_selectors := ["0x02"; "0x03"; "0x04"];
          cv_simhash64 := 0 |})))) H1 H2)).
Defined.

(** ** The output of [match_cmd] *)

Lemma fltb_irrefl_asym (x y : float) :
  is_nan x = false -> is_nan y = false ->
  fltb x x = false
  /\ (fltb y x = true -> fltb x y = false)
  /\ (feqb x y = true -> fltb x y = false).
Proof.
  intros Hx Hy.
  pose proof (fltb_ord x x Hx Hx) as Hxx.
  pose proof (fltb_ord x y Hx Hy) as Hxy.
  pose proof (fltb_ord y x Hy Hx) as Hyx.
  pose proof (feqb_ord' x y Hx Hy) as Heq.
  unfold lex3_lt, lex3_eq in *.
  destruct (ord x) as [[a1 a2] a3], (ord y) as [[b1 b2] b3]. cbn [fst snd] in *.
  destruct (bool_iff_cases _ _ Hxx) as [[-> L1]|[-> L1]];
    destruct (bool_iff_cases _ _ Hxy) as [[-> L2]|[-> L2]];
    destruct (bool_iff_cases _ _ Hyx) as [[-> L3]|[-> L3]];
    destruct (bool_iff_cases _ _ Heq) as [[-> L4]|[-> L4]];
    repeat split; try done; try (intros _); exfalso; lia.
Qed.

Lemma nonneg_fleb_zero (x : float) : nonneg x = true -> fleb f0_0 x = true.
Proof. destruct x as [s|s| |s m e]; try destruct s; done. Qed.

Lemma pair_report_nonneg (a b : ContractView) :
  fingerprint_ok a -> fingerprint_ok b ->
  nonneg (pr_simhash_sim (pair_report a b)) = true
  /\ nonneg (pr_selector_jaccard (pair_report a b)) = true
  /\ nonneg (pr_score (pair_report a b)) = true.
Proof.
  intros Ha Hb. unfold pair_report.
  cbn [pr_score pr_selector_jaccard pr_simhash_sim].
  rewrite (simhash_similarity_distance _ _ Ha Hb).
  destruct (similarity_nonneg_finite _
              (hamming_distance_le (cv_simhash64 a) (cv_simhash64 b)))
    as (Hs & _ & Hadd).
  pose proof (jaccard_nonneg (cv_selectors a) (cv_selectors b)) as Hj.
  split; [exact Hs|split; [exact Hj|]].
  apply Hadd. unfold f0_4. by apply fmul_nonneg.
Qed.

Section Output.
Variables lower basename splitext_root : string -> string.

Lemma match_cmd_unfold (files : list (string * list abi_item)) (top : Z) :
  match_cmd lower basename splitext_root files top
  = if (length files <? 2)%nat then None
    else Some (firstn (Z.to_nat (Z.max 1 top))
                 (rank (match_pairs
                    (map (fun f => extract_contract_view lower basename
                                     splitext_root f.1 f.2) files)))).
Proof. reflexivity. Qed.

Lemma views_ok (files : list (string * list abi_item)) :
  Forall fingerprint_ok
    (map (fun f => extract_contract_view lower basename splitext_root f.1 f.2) files).
Proof.
  apply Forall_forall. intros v Hv%list_elem_of_fmap.
  destruct Hv as (f & -> & _). apply extract_fingerprint_ok.
Qed.

Lemma pairs_count (files : list (string * list abi_item)) :
  length (rank (match_pairs
            (map (fun f => extract_contract_view lower basename
                             splitext_root f.1 f.2) files)))
  = (length files * (length files - 1) / 2)%nat.
Proof.
  unfold rank. by rewrite sorted_length, match_pairs_all_pairs, all_pairs_length,
    length_map.
Qed.

Lemma pair_count_positive (n : nat) : (2 <= n)%nat -> (1 <= n * (n - 1) / 2)%nat.
Proof.
  intros Hn. apply Nat.div_le_lower_bound; [lia|]. nia.
Qed.


(** X19: no report of the comparison has a higher score than the first
    report of the output. *)
Theorem best_pair_first (files : list (string * list abi_item)) (top : Z)
        (out : list PairReport) :
  match_cmd lower basename splitext_root files top = Some out ->
  exists p rest,
    out = p :: rest
    /\ forall q,
         q ∈ match_pairs (map (fun f => extract_contract_view lower basename
                                          splitext_root f.1 f.2) files) ->
         fltb (pr_score p) (pr_score q) = false.
Proof.
  rewrite match_cmd_unfold.
  destruct (Nat.ltb_spec (length files) 2) as [Hlt|Hge]; [discriminate|].
  intros [= <-].
  set (views := map _ files).
  assert (Hv : Forall valid_key (match_pairs views)).
  { rewrite match_pairs_all_pairs. apply all_pairs_valid, views_ok. }
  pose proof (rank_descending _ Hv) as Hs.
  pose proof (sorted_permutation key_lt (match_pairs views)) as Hp.
  fold (rank (match_pairs views)) in Hp.
  assert (Hlen : length (rank (match_pairs views))
                 = (length files * (length files - 1) / 2)%nat)
    by apply pairs_count.
  pose proof (pair_count_positive _ Hge) as Hpos.
  destruct (rank (match_pairs views)) as [|p tl] eqn:E;
    [cbn [length] in Hlen; lia|].
  assert (Hk : exists k, Z.to_nat (Z.max 1 top) = S k)
    by (exists (Z.to_nat (Z.max 1 top) - 1)%nat; lia).
  destruct Hk as [k ->]. exists p, (take k tl). split; [reflexivity|].
  assert (Hvr : Forall valid_key (p :: tl)) by (by rewrite Hp).
  apply Forall_cons in Hvr. destruct Hvr as [Hvp Hvtl].
  destruct Hvp as (Hp1 & _ & _).
  apply StronglySorted_inv in Hs. destruct Hs as [_ Hhd].
  intros q Hq. rewrite <- Hp in Hq. apply elem_of_cons in Hq.
  destruct Hq as [->|Hq];
    [exact (proj1 (fltb_irrefl_asym _ _ Hp1 Hp1))|].
  rewrite Forall_forall in Hhd, Hvtl.
  destruct (Hvtl q Hq) as (Hq1 & _ & _).
  destruct (fltb_irrefl_asym (pr_score p) (pr_score q) Hp1 Hq1) as (_ & Hasym & Heq).
  destruct (Hhd q Hq) as [Habove|Htied].
  - destruct Habove as [Hlt|[Heqs _]]; [by apply Hasym|by apply Heq].
  - unfold tied in Htied. apply andb_prop in Htied. destruct Htied as [Ht _].
    apply andb_prop in Ht. destruct Ht as [Ht _]. by apply Heq.
Qed.

(** X20: the similarity, the Jaccard and the score of the report of
    any two extracted views are never NaN and never negative. *)
Theorem report_values_nonneg (path path' : string) (abi abi' : list abi_item) :
  let r := pair_report
             (extract_contract_view lower basename splitext_root path abi)
             (extract_contract_view lower basename splitext_root path' abi') in
  (is_nan (pr_simhash_sim r) = false /\ fleb f0_0 (pr_simhash_sim r) = true)
  /\ (is_nan (pr_selector_jaccard r) = false
      /\ fleb f0_0 (pr_selector_jaccard r) = true)
  /\ (is_nan (pr_score r) = false /\ fleb f0_0 (pr_score r) = true).
Proof.
  intros r. unfold r.
  destruct (pair_report_nonneg _ _
              (extract_fingerprint_ok lower basename splitext_root path abi)
              (extract_fingerprint_ok lower basename splitext_root path' abi'))
    as (H1 & H2 & H3).
  repeat split; (by apply nonneg_not_nan) || (by apply nonneg_fleb_zero).
Qed.
End Output.


Lemma best_pair_first_witness :
  match_cmd ascii_lower posix_basename id sample_files 1
    = Some (firstn 1 (rank (match_pairs
         (map (fun f => extract_contract_view ascii_lower posix_basename id f.1 f.2)
              sample_files))))
  /\ exists p rest,
       firstn 1 (rank (match_pairs
         (map (fun f => extract_contract_view ascii_lower posix_basename id f.1 f.2)
              sample_files))) = p :: rest
       /\ forall q,
            q ∈ match_pairs
                  (map (fun f => extract_contract_view ascii_lower posix_basename
                                   id f.1 f.2) sample_files) ->
            fltb (pr_score p) (pr_score q) = false.
Proof.
  assert (H : match_cmd ascii_lower posix_basename id sample_files 1
    = Some (firstn 1 (rank (match_pairs
         (map (fun f => extract_contract_view ascii_lower posix_basename id f.1 f.2)
              sample_files))))) by reflexivity.
  split; [exact H|].
  exact (best_pair_first ascii_lower posix_basename id sample_files 1 _ H).
Defined.

(** ** The token list as a whole *)

Lemma functions_count (abi : list abi_item) :
  length (flat_map item_functions abi)
  = (length (List.filter is_function_item abi)
     + length (List.filter is_special_item abi))%nat.
Proof.
  induction abi as [|it abi IH]; [reflexivity|].
  cbn [flat_map List.filter]. rewrite length_app, IH.
  unfold item_functions, is_function_item, is_special_item.
  destruct (String.eqb_spec (default "function" (it_type it)) "function") as [->|Hf];
    [cbn [length is_special String.eqb orb]; reflexivity|].
  destruct (String.eqb_spec (default "function" (it_type it)) "event") as [->|He];
    [reflexivity|].
  destruct (is_special _); cbn [length]; lia.
Qed.

Lemma events_count (abi : list abi_item) :
  length (flat_map item_events abi) = length (List.filter is_event_item abi).
Proof.
  induction abi as [|it abi IH]; [reflexivity|].
  cbn [flat_map List.filter]. rewrite length_app, IH.
  unfold item_events, is_event_item.
  destruct (String.eqb_spec (default "function" (it_type it)) "function") as [->|Hf];
    [reflexivity|].
  by destruct (String.eqb _ "event").
Qed.

Lemma item_event_tokens_length (lower : string -> string) (it : abi_item) :
  length (item_event_tokens lower it) = if is_event_item it then 2%nat else 0%nat.
Proof.
  unfold item_event_tokens, is_event_item.
  destruct (it_type it) as [typ|].
  - change (default "function" (Some typ)) with typ.
    destruct (String.eqb_spec typ "event") as [->|Hne].
    + by rewrite bool_decide_eq_true_2.
    + by rewrite bool_decide_eq_false_2 by congruence.
  - by rewrite bool_decide_eq_false_2.
Qed.

Section TokenList.
Variable lower : string -> string.

Lemma function_tokens_length (abi : list abi_item) :
  length (flat_map (item_function_tokens lower) abi)
  = (3 * length (List.filter is_function_item abi) + function_input_count abi)%nat.
Proof.
  unfold function_input_count.
  induction abi as [|it abi IH]; [reflexivity|].
  cbn [flat_map List.filter]. rewrite length_app, IH.
  unfold item_function_tokens. destruct (is_function_item it).
  - cbn [flat_map]. rewrite !length_app, length_map. cbn [length]. lia.
  - cbn [length]. lia.
Qed.

Lemma event_tokens_length (abi : list abi_item) :
  length (flat_map (item_event_tokens lower) abi)
  = (2 * length (List.filter is_event_item abi))%nat.
Proof.
  induction abi as [|it abi IH]; [reflexivity|].
  cbn [flat_map List.filter]. rewrite length_app, IH, item_event_tokens_length.
  destruct (is_event_item it); cbn [length]; lia.
Qed.

(** X21: the token list is the tokens of the function-kind members in
    member order, then the tokens of the events, then the counters
    nfunc (function-kind plus constructor, fallback and receive
    members), nevent (events) and nsel (function-kind members); it has
    3 tokens per function, 1 per function input, 2 per event, and 3
    counters. *)
Theorem token_list_structure (abi : list abi_item) :
  let nf := length (List.filter is_function_item abi) in
  let ns := length (List.filter is_special_item abi) in
  let ne := length (List.filter is_event_item abi) in
  contract_tokens lower abi
  = flat_map (item_function_tokens lower) abi
    ++ flat_map (item_event_tokens lower) abi
    ++ [("nfunc:" +:+ pretty (nf + ns)%nat, 1);
        ("nevent:" +:+ pretty ne, 1);
        ("nsel:" +:+ pretty nf, 1)]
  /\ length (contract_tokens lower abi)
     = (3 * nf + function_input_count abi + 2 * ne + 3)%nat.
Proof.
  intros nf ns ne.
  assert (Hs : contract_tokens lower abi
    = flat_map (item_function_tokens lower) abi
      ++ flat_map (item_event_tokens lower) abi
      ++ [("nfunc:" +:+ pretty (nf + ns)%nat, 1);
          ("nevent:" +:+ pretty ne, 1);
          ("nsel:" +:+ pretty nf, 1)]).
  { rewrite contract_tokens_structure.
    unfold raw_functions, raw_events. rewrite raw_selectors_length.
    rewrite scan_flat_map. cbn [fst snd].
    by rewrite functions_count, events_count. }
  split; [exact Hs|].
  rewrite Hs, !length_app, function_tokens_length, event_tokens_length.
  cbn [length]. unfold nf, ne. lia.
Qed.
End TokenList.

Section Defaults.
Variables lower basename splitext_root : string -> string.

Lemma item_functions_defaults (it : abi_item) :
  item_functions (with_defaults it) = item_functions it.
Proof. reflexivity. Qed.

Lemma item_events_defaults (it : abi_item) :
  item_events (with_defaults it) = item_events it.
Proof. reflexivity. Qed.

Lemma item_selectors_defaults (it : abi_item) :
  item_selectors (with_defaults it) = item_selectors it.
Proof. reflexivity. Qed.

Lemma item_function_tokens_defaults (it : abi_item) :
  item_function_tokens lower (with_defaults it) = item_function_tokens lower it.
Proof. reflexivity. Qed.

Lemma item_event_tokens_defaults (it : abi_item) :
  item_event_tokens lower (with_defaults it) = item_event_tokens lower it.
Proof.
  unfold item_event_tokens, with_defaults.
  cbn [it_type it_name it_inputs it_stateMutability].
  destruct (it_type it) as [typ|].
  - reflexivity.
  - by rewrite !bool_decide_eq_false_2.
Qed.

(** X22: writing out every missing key of every member with its
    default (type "function", name "", no inputs, mutability
    "nonpayable") changes neither the view nor the token list. *)
Theorem defaults_explicit (path : string) (abi : list abi_item) :
  extract_contract_view lower basename splitext_root path (map with_defaults abi)
  = extract_contract_view lower basename splitext_root path abi
  /\ contract_tokens lower (map with_defaults abi) = contract_tokens lower abi.
Proof.
  assert (Hf : flat_map item_functions (map with_defaults abi)
               = flat_map item_functions abi)
    by (apply flat_map_map_ext, item_functions_defaults).
  assert (He : flat_map item_events (map with_defaults abi)
               = flat_map item_events abi)
    by (apply flat_map_map_ext, item_events_defaults).
  assert (Hs : flat_map item_selectors (map with_defaults abi)
               = flat_map item_selectors abi)
    by (apply flat_map_map_ext, item_selectors_defaults).
  assert (Ht : contract_tokens lower (map with_defaults abi)
               = contract_tokens lower abi).
  { rewrite !contract_tokens_structure.
    unfold raw_functions, raw_events, raw_selectors. rewrite !scan_flat_map.
    cbn [fst snd]. rewrite Hf, He, Hs.
    rewrite (flat_map_map_ext _ _ _ item_function_tokens_defaults).
    by rewrite (flat_map_map_ext _ _ _ item_event_tokens_defaults). }
  split; [|exact Ht].
  by rewrite !extract_fields, Ht, Hf, He, Hs.
Qed.
End Defaults.

(** ** The printed fingerprint *)

Lemma zeros_append_length (k : nat) (s : string) :
  String.length (zeros k +:+ s) = (k + String.length s)%nat.
Proof. induction k as [|k IH]; [reflexivity|]. simpl. by rewrite IH. Qed.

Lemma zeros_append_value (k : nat) (s : string) :
  HexString.Raw.to_N (zeros k +:+ s) 0 = HexString.Raw.to_N s 0.
Proof. induction k as [|k IH]; [reflexivity|]. simpl. exact IH. Qed.

Lemma hex_digits_value (n : N) : HexString.Raw.to_N (hex_digits n) 0 = n.
Proof.
  destruct n as [|p]; [reflexivity|].
  unfold hex_digits. by rewrite HexString.Raw.to_N_of_pos.
Qed.

Lemma of_pos_length (n : nat) :
  forall (p : positive) (rest : string) (k : nat),
    (Pos.size_nat p <= n)%nat -> Z.pos p < 16 ^ Z.of_nat k ->
    (String.length (HexString.Raw.of_pos p rest) <= k + String.length rest)%nat.
Proof.
  induction n as [|n IH]; intros p rest k Hn Hp.
  { destruct p; cbn [Pos.size_nat] in Hn; lia. }
  assert (Hk : (1 <= k)%nat).
  { destruct k; [|lia]. change (16 ^ Z.of_nat 0) with 1 in Hp. lia. }
  assert (Hrec : forall q c, (Pos.size_nat q <= n)%nat -> 16 * Z.pos q <= Z.pos p ->
            (String.length (HexString.Raw.of_pos q (String c rest))
             <= k + String.length rest)%nat).
  { intros q c Hq Hle.
    destruct k as [|k]; [lia|].
    rewrite Nat2Z.inj_succ, Z.pow_succ_r in Hp by lia.
    specialize (IH q (String c rest) k Hq ltac:(lia)).
    cbn [String.length] in IH. lia. }
  do 4 (try destruct p as [p|p|]); cbn [Pos.size_nat] in Hn;
    cbn [HexString.Raw.of_pos String.length];
    try lia; apply Hrec; lia.
Qed.

Lemma hex_digits_length (n : Z) :
  0 <= n < 2 ^ 64 -> (String.length (hex_digits (Z.to_N n)) <= 16)%nat.
Proof.
  intros Hn. destruct n as [|p|p]; [cbn; lia| |lia].
  change (Z.to_N (Z.pos p)) with (Npos p). unfold hex_digits.
  pose proof (of_pos_length (Pos.size_nat p) p "" 16 (le_n _)) as H.
  cbn [String.length] in H. rewrite Nat.add_0_r in H. apply H.
  change (16 ^ Z.of_nat 16) with (2 ^ 64). lia.
Qed.

Lemma format_016x_word (n : Z) :
  0 <= n < 2 ^ 64 ->
  String.length (format_016x n) = 16%nat
  /\ HexString.to_Z ("0x" +:+ format_016x n) = n.
Proof.
  intros Hn. unfold format_016x.
  destruct (Z.ltb_spec n 0) as [Hneg|_]; [lia|].
  rewrite Z.abs_eq by lia.
  pose proof (hex_digits_length n Hn) as Hlen.
  split.
  - rewrite zeros_append_length. lia.
  - change ("0x" +:+ ?s) with (String "0" (String "x" s)).
    unfold HexString.to_Z, HexString.to_N.
    cbn [ascii_dec ascii_rec ascii_rect Bool.bool_dec bool_rec bool_rect
         sumbool_rec sumbool_rect eq_rec_r eq_rec eq_rect eq_sym f_equal].
    rewrite zeros_append_value, hex_digits_value.
    destruct n as [|p|p]; [reflexivity|reflexivity|lia].
Qed.

(** X23: for every ABI, the fingerprint as scan prints it is 0x
    followed by exactly 16 characters, and reading that text back as a
    hexadecimal number gives the fingerprint of the view; so two views
    are printed with the same text exactly when their fingerprints are
    equal. *)
Theorem fingerprint_text_roundtrip
  (lower basename splitext_root : string -> string)
  (path path' : string) (abi abi' : list abi_item) :
  let v := extract_contract_view lower basename splitext_root path abi in
  let v' := extract_contract_view lower basename splitext_root path' abi' in
  String.length (fingerprint_text v) = 18%nat
  /\ HexString.to_Z (fingerprint_text v) = cv_simhash64 v
  /\ (fingerprint_text v = fingerprint_text v' <-> cv_simhash64 v = cv_simhash64 v').
Proof.
  intros v v'.
  pose proof (extract_fingerprint_ok lower basename splitext_root path abi) as Hv.
  pose proof (extract_fingerprint_ok lower basename splitext_root path' abi') as Hv'.
  fold v in Hv. fold v' in Hv'. unfold fingerprint_ok in Hv, Hv'.
  destruct (format_016x_word _ Hv) as [Hl Hr].
  destruct (format_016x_word _ Hv') as [_ Hr'].
  unfold fingerprint_text. split; [|split].
  - change ("0x" +:+ ?s) with (String "0" (String "x" s)).
    cbn [String.length]. by rewrite Hl.
  - exact Hr.
  - split; [|by intros ->].
    intros Heq. rewrite <- Hr, <- Hr'. by rewrite Heq.
Qed.
